(** * A shallow embedding of [image_generation_app.py]

    The Streamlit application combines a template image with overlays and
    text.  This development embeds the parts of the program that carry
    behaviour: the pixel transform [make_color_transparent], the resize
    [fit_into] with its double-precision arithmetic, the compositing
    routine [generate_image] over a store of mutable Pillow images, and the
    batch loop of the "Batch Generator" tab that parses pipe-delimited lines
    and packages the results into a ZIP archive.

    Python floats are IEEE binary64 numbers; they are modelled with the
    Standard Library's [SpecFloat] (the executable specification of
    binary64 arithmetic: [SFdiv], [SFmul], [SFsqrt], [SFltb] at precision
    53 and maximal exponent 1024). *)

From Stdlib Require Import ZArith Lia List String Ascii Bool.
From Stdlib Require Import Strings.Byte.
From Stdlib Require Import SpecFloat.
From Stdlib Require Import Reals Lra.
From stdpp Require Import base gmap strings.
Import ListNotations.

Open Scope Z_scope.

(* ------------------------------------------------------------------ *)
(** ** Python numbers *)

Module Py.

  (** Binary64 parameters. *)
Definition prec : Z := 53.
Definition emax : Z := 1024.

  (** [float(n)] for a Python [int]: the correctly rounded value. *)
Definition float_of_int (n : Z) : spec_float :=
    binary_normalize prec emax n 0 false.

  (** [a / b] on two Python [int]s (true division). *)
Definition true_div (a b : Z) : option spec_float :=
    if Z.eqb b 0 then None (* ZeroDivisionError *)
    else Some (SFdiv prec emax (float_of_int a) (float_of_int b)).

  (** [n * x] for an [int] [n] and a [float] [x]. *)
Definition mul_int_float (n : Z) (x : spec_float) : spec_float :=
    SFmul prec emax (float_of_int n) x.

  (** [min(a, b)]: Python keeps the first argument unless the second is
      strictly smaller. *)
Definition min_float (a b : spec_float) : spec_float :=
    if SFltb b a then b else a.

  (** [int(x)] for a [float]: truncation toward zero; infinities and NaN
      raise. *)
Definition trunc (x : spec_float) : option Z :=
    match x with
    | S754_zero _ => Some 0
    | S754_infinity _ | S754_nan => None
    | S754_finite s m e =>
        let a := if Z.leb 0 e then Z.pos m * 2 ^ e
                 else Z.pos m / 2 ^ (- e) in
        Some (if s then - a else a)
    end.

  (** [x < n] for a [float] [x] and an [int] [n]: Python compares the
      exact values. *)
Definition float_lt_int (x : spec_float) (n : Z) : bool :=
    match x with
    | S754_zero _ => Z.ltb 0 n
    | S754_infinity s => s
    | S754_nan => false
    | S754_finite s m e =>
        let v := if s then Z.neg m else Z.pos m in
        if Z.leb 0 e then Z.ltb (v * 2 ^ e) n
        else Z.ltb v (n * 2 ^ (- e))
    end.

  (** [n ** 0.5] for a non-negative [int] [n], computed by CPython through
      the C library's [pow]; modelled by the correctly rounded square
      root. *)
Definition sqrt_int (n : Z) : spec_float :=
    SFsqrt prec emax (float_of_int n).

End Py.

(** The real value of a positive float [m * 2^e] is [IZR m * p2 e]; the
    unit roundoff of binary64 is [eps = 2^-52]. *)
Definition p2 (e : Z) : R := powerRZ 2 e.

Definition eps : R := p2 (-52).

(* ------------------------------------------------------------------ *)
(** ** Images *)

(** An RGBA pixel, as [getdata()] yields it: four 8-bit channels. *)
Record pixel := mkPixel { pr : byte; pg : byte; pb : byte; pa : byte }.

(** A Pillow image in mode RGBA: its size and its pixels in the row-major
    order of [getdata()]. *)
Record image := mkImage { img_w : Z; img_h : Z; img_data : list pixel }.

Definition chan (b : byte) : Z := Z.of_N (Byte.to_N b).

Definition zero_byte : byte := Byte.x00.

(** [sum((item[i] - target_color[i])**2 for i in range(3))]. *)
Definition sq_dist (item : pixel) (target_color : byte * byte * byte) : Z :=
  let '(tr, tg, tb) := target_color in
  0 + (chan (pr item) - chan tr) ^ 2
    + (chan (pg item) - chan tg) ^ 2
    + (chan (pb item) - chan tb) ^ 2.

(** The body of the loop of [make_color_transparent] for one pixel. *)
Definition transparent_step (target_color : byte * byte * byte)
    (threshold : Z) (item : pixel) : pixel :=
  let diff := Py.sqrt_int (sq_dist item target_color) in
  if Py.float_lt_int diff threshold
  then mkPixel (pr item) (pg item) (pb item) zero_byte
  else item.

(** [make_color_transparent img target_color threshold]: [img.convert("RGBA")]
    is a copy of an RGBA image, [getdata] lists its pixels and [putdata]
    stores the new list.  The threshold is a Python [int] (the slider of the
    "Background Remover" tab and the default [50]). *)
Definition make_color_transparent (img : image)
    (target_color : byte * byte * byte) (threshold : Z) : image :=
  let new_data := map (transparent_step target_color threshold) (img_data img) in
  mkImage (img_w img) (img_h img) new_data.

(** The largest squared RGB distance, [3 * 255^2]. *)
Definition max_sq_dist : Z := 3 * 255 ^ 2.

(** Bracketing of the binary64 square root by the integer square root,
    checked for every integer up to [bound]. *)
Definition sqrt_bracketed (n : Z) : bool :=
  let k := Z.sqrt n in
  match Py.sqrt_int n with
  | S754_zero _ => Z.eqb n 0
  | S754_finite false m e =>
      if Z.leb 0 e then Z.eqb (Z.pos m * 2 ^ e) k
      else Z.leb (k * 2 ^ (- e)) (Z.pos m) && Z.ltb (Z.pos m) ((k + 1) * 2 ^ (- e))
  | _ => false
  end.

Fixpoint all_bracketed (fuel : nat) (n : Z) : bool :=
  match fuel with
  | O => true
  | S f => sqrt_bracketed n && all_bracketed f (n + 1)
  end.

(* ------------------------------------------------------------------ *)
(** ** Python strings *)

Module PyStr.

  (** Characters are code points below 256; [str.isspace] holds for
      9-13, 28-32, 133 and 160 among them. *)
Definition is_space (c : ascii) : bool :=
    let n := N_of_ascii c in
    ((9 <=? n) && (n <=? 13))%N || ((28 <=? n) && (n <=? 32))%N
    || (n =? 133)%N || (n =? 160)%N.

Fixpoint lstrip (s : string) : string :=
    match s with
    | EmptyString => EmptyString
    | String c r => if is_space c then lstrip r else s
    end.

Fixpoint rstrip (s : string) : string :=
    match s with
    | EmptyString => EmptyString
    | String c r =>
        let r' := rstrip r in
        match r' with
        | EmptyString => if is_space c then EmptyString else String c EmptyString
        | _ => String c r'
        end
    end.

  (** [s.strip()] *)
Definition strip (s : string) : string := rstrip (lstrip s).

  (** [s.split(sep)] for a one-character separator: always at least one
      field. *)
Fixpoint split (sep : ascii) (s : string) : list string :=
    match s with
    | EmptyString => [EmptyString]
    | String c r =>
        let parts := split sep r in
        if Ascii.eqb c sep then EmptyString :: parts
        else match parts with
             | p :: ps => String c p :: ps
             | [] => [String c EmptyString]
             end
    end.

  (** [sep.join(l)] *)
Fixpoint join (sep : string) (l : list string) : string :=
    match l with
    | [] => EmptyString
    | [x] => x
    | x :: xs => x ++ sep ++ join sep xs
    end.

Definition newline : string := String "010"%char EmptyString.
Definition pipe : ascii := "|"%char.
Definition png_ext : string := ".png".

  (** [str.isalnum()] for one character: the letters, decimal digits,
      digits and numeric characters below 256. *)
Definition is_alnum (c : ascii) : bool :=
    let n := N_of_ascii c in
    ((48 <=? n) && (n <=? 57))%N || ((65 <=? n) && (n <=? 90))%N
    || ((97 <=? n) && (n <=? 122))%N
    || (n =? 170)%N || (n =? 178)%N || (n =? 179)%N || (n =? 181)%N
    || (n =? 185)%N || (n =? 186)%N || ((188 <=? n) && (n <=? 190))%N
    || ((192 <=? n) && (n <=? 214))%N || ((216 <=? n) && (n <=? 246))%N
    || ((248 <=? n) && (n <=? 255))%N.

  (** [s.lstrip(ch)] for a one-character argument. *)
Fixpoint lstrip_char (ch : ascii) (s : string) : string :=
    match s with
    | EmptyString => EmptyString
    | String c r => if Ascii.eqb c ch then lstrip_char ch r else s
    end.

  (** [''.join(f(c) for c in s)] for a character-to-character [f]. *)
Fixpoint map_chars (f : ascii -> ascii) (s : string) : string :=
    match s with
    | EmptyString => EmptyString
    | String c r => String (f c) (map_chars f r)
    end.

  (** [s] with the prefix [p] removed, when [s] starts with [p]. *)
Fixpoint strip_prefix (p s : string) : option string :=
    match p with
    | EmptyString => Some s
    | String a p' =>
        match s with
        | EmptyString => None
        | String b s' => if Ascii.eqb a b then strip_prefix p' s' else None
        end
    end.

  (** The left-to-right scan of [s.replace(old, new)] for a non-empty
      [old]: an occurrence is replaced and the scan resumes after it.  Each
      step consumes a character, so [length s] steps suffice. *)
Fixpoint replace_scan (fuel : nat) (old new s : string) : string :=
    match fuel with
    | O => s
    | S f =>
        match s with
        | EmptyString => EmptyString
        | String c r =>
            match strip_prefix old s with
            | Some rest => (new ++ replace_scan f old new rest)%string
            | None => String c (replace_scan f old new r)
            end
        end
    end.

  (** [s.replace(old, new)]; an empty [old] inserts [new] around every
      character. *)
Definition replace (old new s : string) : string :=
    match old with
    | EmptyString =>
        (new ++ (fix go (s : string) : string :=
                   match s with
                   | EmptyString => EmptyString
                   | String c r => String c (new ++ go r)
                   end) s)%string
    | _ => replace_scan (String.length s) old new s
    end.

  (** Whether [old] occurs in [s] (the [in] operator on strings). *)
Fixpoint occurs (old s : string) : bool :=
    match s with
    | EmptyString => false
    | String c r =>
        match strip_prefix old s with
        | Some _ => true
        | None => occurs old r
        end
    end.

End PyStr.

(** A Python [dict] with string keys, in insertion order: assigning an
    existing key replaces its value in place, a new key goes last. *)
Fixpoint dict_set {V} (d : list (string * V)) (k : string) (v : V)
    : list (string * V) :=
  match d with
  | [] => [(k, v)]
  | (k', v') :: r => if String.eqb k' k then (k, v) :: r
                     else (k', v') :: dict_set r k v
  end.

(** [d[k]]: [None] is Python's [KeyError]. *)
Fixpoint dict_get {V} (d : list (string * V)) (k : string) : option V :=
  match d with
  | [] => None
  | (k', v) :: r => if String.eqb k' k then Some v else dict_get r k
  end.

(** [d.update(e)]: the items of [e] assigned in [e]'s order. *)
Definition dict_update {V} (d e : list (string * V)) : list (string * V) :=
  fold_left (fun acc kv => dict_set acc (fst kv) (snd kv)) e d.

(* ------------------------------------------------------------------ *)
(** ** The store of Pillow images *)

(** Pillow images are mutable objects; a location names one. *)
Abbreviation loc := nat (only parsing).

Record store := mkStore { heap : gmap nat image; next_loc : nat }.

(** Every allocated location lies below [next_loc]. *)
Definition store_wf (st : store) : Prop :=
  map_Forall (fun l _ => (l < next_loc st)%nat) (heap st).

(** Computations over the store that may raise a Python exception
    ([None]); the store at the point of the exception is kept. *)
Definition M (A : Type) : Type := store -> option A * store.

#[global] Instance M_ret : MRet M := fun A a st => (Some a, st).
#[global] Instance M_bind : MBind M := fun A B f m st =>
  match m st with
  | (Some a, st') => f a st'
  | (None, st') => (None, st')
  end.
Definition raise {A} : M A := fun st => (None, st).
Definition ret {A} (a : A) : M A := mret a.

Definition read (l : loc) : M image :=
  fun st => match heap st !! l with
            | Some im => (Some im, st)
            | None => (None, st)
            end.

Definition alloc (im : image) : M loc :=
  fun st => (Some (next_loc st),
             mkStore (<[next_loc st := im]> (heap st)) (S (next_loc st))).

Definition write (l : loc) (im : image) : M unit :=
  fun st => (Some tt, mkStore (<[l := im]> (heap st)) (next_loc st)).

(** [img.copy()] *)
Definition copy (l : loc) : M loc := im ← read l ; alloc im.

(** A TrueType font as [ImageFont.truetype(font_file, font_size)] loads it. *)
Record font := mkFont { font_file : string; font_size : Z }.

(** The pixel-level work of Pillow: LANCZOS resampling, alpha blending and
    glyph rendering.  None of the claims depends on pixel values produced
    by them, so they are left abstract. *)
Class Pillow := {
  resample : image -> Z -> Z -> list pixel;
  blend : image -> image -> Z -> Z -> list pixel;
  render_text : image -> Z -> Z -> string -> font -> byte * byte * byte ->
                Z -> string -> list pixel
}.

(** The sidebar settings that [generate_image] reads as globals. *)
Record config := mkConfig {
  overlay_x : Z; overlay_y : Z; overlay_max_w : Z; overlay_max_h : Z;
  text_x : Z; text_y : Z; text_spacing : Z;
  text_color_rgb : byte * byte * byte; text_align : string
}.

Section Generate.
Context `{Pillow}.

  (** [img.resize((w, h), Image.LANCZOS)]: a new image; Pillow raises
      [ValueError] when a side is below 1. *)
Definition resize (img : loc) (w h : Z) : M loc :=
    im ← read img ;
    if (w <? 1) || (h <? 1) then raise
    else alloc (mkImage w h (resample im w h)).

  (** [fit_into(img, max_w, max_h)] *)
Definition fit_into (img : loc) (max_w max_h : Z) : M loc :=
    im ← read img ;
    let w := img_w im in
    let h := img_h im in
    match Py.true_div max_w w, Py.true_div max_h h with
    | Some sw, Some sh =>
        let scale := Py.min_float sw sh in
        match Py.trunc (Py.mul_int_float w scale),
              Py.trunc (Py.mul_int_float h scale) with
        | Some w', Some h' => resize img w' h'
        | _, _ => raise
        end
    | _, _ => raise
    end.

  (** [canvas.alpha_composite(im, dest)]: in place.  Pillow accepts any
      destination, negative ones included: it crops what falls outside
      [canvas] and never changes the size of [canvas]. *)
Definition alpha_composite (canvas im : loc) (dest : Z * Z) : M unit :=
    let '(x, y) := dest in
    c ← read canvas ;
    o ← read im ;
    write canvas (mkImage (img_w c) (img_h c) (blend c o x y)).

  (** [ImageDraw.Draw(canvas).multiline_text(...)]: in place. *)
Definition multiline_text (canvas : loc) (xy : Z * Z) (txt : string)
      (fnt : font) (fill : byte * byte * byte) (spacing : Z) (align : string)
      : M unit :=
    c ← read canvas ;
    write canvas (mkImage (img_w c) (img_h c)
                    (render_text c (fst xy) (snd xy) txt fnt fill spacing align)).

  (** [generate_image(template, overlay, custom_text, font)]; [overlay] is
      [None] for Python's [None] (a Pillow image is always truthy). *)
Definition generate_image (cfg : config) (template : loc)
      (overlay : option loc) (custom_text : string) (fnt : font) : M loc :=
    canvas ← copy template ;
    match overlay with
    | Some ov =>
        overlay_resized ← fit_into ov (overlay_max_w cfg) (overlay_max_h cfg) ;
        alpha_composite canvas overlay_resized (overlay_x cfg, overlay_y cfg)
    | None => ret tt
    end ;;
    (if String.eqb custom_text EmptyString then ret tt
     else multiline_text canvas (text_x cfg, text_y cfg) custom_text fnt
            (text_color_rgb cfg) (text_spacing cfg) (text_align cfg)) ;;
    ret canvas.

End Generate.

(** The size the spec assigns to [fit_into]: [(floor(w*s), floor(h*s))]
    for the exact ratio [s = min(max_w/w, max_h/h)].  With
    [S = min(max_w*h, max_h*w)], [s = S/(w*h)], so [w*s = S/h] and
    [h*s = S/w]. *)
Definition fit_into_exact_size (w h max_w max_h : Z) : Z * Z :=
  let S := Z.min (max_w * h) (max_h * w) in (S / h, S / w).

(* ------------------------------------------------------------------ *)
(** ** The "Batch Generator" tab *)

(** Lines 524-540 for one line: [None] when the line has fewer than two
    fields, otherwise the file name, the overlay and the text. *)
Definition parse_batch_line (overlays_dict : gmap string loc) (line : string)
    : option (string * option loc * string) :=
  let parts := map PyStr.strip (PyStr.split PyStr.pipe line) in
  if (length parts <? 2)%nat then None
  else
    let filename := List.hd EmptyString parts in
    let '(overlay, text_parts) :=
      match overlays_dict !! List.last parts EmptyString with
      | Some ov => (Some ov, removelast (tl parts))   (* parts[1:-1] *)
      | None => (None, tl parts)                      (* parts[1:] *)
      end in
    Some (filename, overlay, PyStr.join PyStr.newline text_parts).

(** What the loop has produced so far: the line numbers of the warnings
    shown and the [generated_images] dict, whose values are the images
    that [img.save(buf, format='PNG')] encodes. *)
Record batch_state := mkBatch {
  warnings : list nat;
  generated_images : list (string * image)
}.

Section Batch.
Context `{Pillow}.
Variable cfg : config.
Variable template : loc.
Variable overlays_dict : gmap string loc.
Variable fnt : font.

  (** [for idx, line in enumerate(lines): ...] from index [idx] on. *)
Fixpoint batch_loop (idx : nat) (lines : list string) (bs : batch_state)
      : M batch_state :=
    match lines with
    | [] => mret bs
    | line :: rest =>
        match parse_batch_line overlays_dict line with
        | None =>
            (* st.warning(...); continue *)
            batch_loop (S idx) rest
              (mkBatch (warnings bs ++ [S idx]) (generated_images bs))
        | Some (filename, overlay, custom_text) =>
            img ← generate_image cfg template overlay custom_text fnt ;
            png ← read img ;
            batch_loop (S idx) rest
              (mkBatch (warnings bs)
                 (dict_set (generated_images bs)
                    (filename ++ PyStr.png_ext) png))
        end
    end.

  (** [lines = [line.strip() for line in batch_input.split('\n') if line.strip()]] *)
Definition batch_lines (batch_input : string) : list string :=
    filter (fun l => negb (String.eqb l EmptyString))
      (map PyStr.strip (PyStr.split "010"%char batch_input)).

  (** The button handler: [None] when there is no line (the error message
      branch); otherwise the final state, whose [generated_images] the ZIP
      archive receives entry by entry. *)
Definition batch_generate (batch_input : string)
      : M (option batch_state) :=
    let lines := batch_lines batch_input in
    match lines with
    | [] => mret None
    | _ => bs ← batch_loop 0 lines (mkBatch [] []) ; mret (Some bs)
    end.

  (** [zip_file.writestr(filename, img_bytes)] for each item of the dict. *)
Definition zip_entries (bs : batch_state) : list string :=
    map fst (generated_images bs).

End Batch.

(** A Pillow stand-in used to run the model on concrete inputs. *)
#[global] Instance plain_pillow : Pillow := {
  resample := fun im w h => img_data im;
  blend := fun c o x y => img_data c;
  render_text := fun c x y t f col sp al => img_data c
}.

Definition default_config : config :=
  mkConfig 400 1060 225 175 650 1075 6 (x2b, x43, x96) "center".

Definition sample_store : store :=
  mkStore (<[0%nat := mkImage 1080 1350 []]> (<[1%nat := mkImage 300 200 []]> ∅)) 2.

(** A store holding a 100x158 overlay. *)
Definition fit_sample_store : store :=
  mkStore {[ 0%nat := mkImage 100 158 [] ]} 1.

Definition sample_overlays : gmap string loc := {[ "overlay1.png" := 1%nat ]}.

Definition sample_font : font := mkFont "font.ttf" 54.

(** Reasoning about store computations: [keeps P m] says that [m] leaves a
    store satisfying [P] in a store satisfying [P], whether or not it
    raises; [yields_only a m] says that [m] can only return [a]. *)
Definition keeps (P : store -> Prop) {A} (m : M A) : Prop :=
  forall st, P st -> P (snd (m st)).

Definition yields_only {A} (a : A) (m : M A) : Prop :=
  forall st b, fst (m st) = Some b -> b = a.

(** The template [t] still holds [timg], the canvas [c] is another image of
    the same size, and both are allocated. *)
Definition canvas_inv (t : loc) (timg : image) (c : loc) (st : store) : Prop :=
  heap st !! t = Some timg /\
  (exists im, heap st !! c = Some im /\
              img_w im = img_w timg /\ img_h im = img_h timg) /\
  t <> c /\ (t < next_loc st)%nat /\ (c < next_loc st)%nat.

(* ------------------------------------------------------------------ *)
(** ** Colours: [int(text_color.lstrip('#')[i:i+2], 16)] *)

Module PyInt.

  (** CPython's [_PyLong_DigitValue]: [0-9] and the ASCII letters count
      [0 .. 35]; every other character [37]. *)
Definition digit_value (c : ascii) : Z :=
    let n := Z.of_N (N_of_ascii c) in
    if (48 <=? n) && (n <=? 57) then n - 48
    else if (65 <=? n) && (n <=? 90) then n - 55
    else if (97 <=? n) && (n <=? 122) then n - 87
    else 37.

  (** The optional sign. *)
Definition sign (s : string) : bool * string :=
    match s with
    | String c r =>
        if Ascii.eqb c "-" then (true, r)
        else if Ascii.eqb c "+" then (false, r)
        else (false, s)
    | EmptyString => (false, s)
    end.

  (** Base 16 accepts a [0x] or [0X] prefix, followed by at most one
      underscore. *)
Definition skip_prefix16 (s : string) : string :=
    match s with
    | String z (String x r) =>
        if Ascii.eqb z "0" && (Ascii.eqb x "x" || Ascii.eqb x "X")
        then match r with
             | String u r' => if Ascii.eqb u "_" then r' else r
             | EmptyString => r
             end
        else s
    | _ => s
    end.

  (** The digit loop: digits of value below 16 and single underscores
      between them.  The result is the value, the number of digits, whether
      the last character read was an underscore, and the rest of the
      string; [None] for a doubled underscore. *)
Fixpoint scan_digits (acc : Z) (digits : nat) (prev_us : bool) (s : string)
      : option (Z * nat * bool * string) :=
    match s with
    | EmptyString => Some (acc, digits, prev_us, s)
    | String c r =>
        if digit_value c <? 16
        then scan_digits (16 * acc + digit_value c) (S digits) false r
        else if Ascii.eqb c "_"
        then (if prev_us then None else scan_digits acc digits true r)
        else Some (acc, digits, prev_us, s)
    end.

  (** [int(s, 16)]; [None] is Python's [ValueError].  Surrounding
      whitespace is skipped, then the sign, the prefix and the digits are
      read; nothing but whitespace may follow them. *)
Definition int16 (s : string) : option Z :=
    let '(neg, s) := sign (PyStr.lstrip s) in
    let s := skip_prefix16 s in
    let leading_underscore :=
      match s with String c _ => Ascii.eqb c "_" | EmptyString => false end in
    if leading_underscore then None
    else match scan_digits 0 O false s with
         | Some (v, digits, prev_us, rest) =>
             if prev_us || Nat.eqb digits 0 then None
             else if String.eqb (PyStr.lstrip rest) EmptyString
             then Some (if neg then - v else v)
             else None
         | None => None
         end.

End PyInt.

(** [tuple(int(color.lstrip('#')[i:i+2], 16) for i in (0, 2, 4))], the
    parsing of a colour picker value (lines 46 and 129); the slices
    [h[i:i+2]] are [substring i 2 h]. *)
Definition hex_to_rgb (color : string) : option (Z * Z * Z) :=
  let h := PyStr.lstrip_char "#" color in
  r ← PyInt.int16 (substring 0 2 h) ;
  g ← PyInt.int16 (substring 2 2 h) ;
  b ← PyInt.int16 (substring 4 2 h) ;
  Some (r, g, b).

(* ------------------------------------------------------------------ *)
(** ** Loading the overlays and the "Background Remover" tab *)

(** Lines 98-106: [overlays_dict[name] = ...] for each uploaded file (its
    name and the image that [Image.open(...).convert("RGBA")] made), then
    [overlays_dict.update(st.session_state['saved_overlays'])]. *)
Definition load_overlays (uploads saved_overlays : list (string * loc))
    : list (string * loc) :=
  dict_update (dict_update [] uploads) saved_overlays.

(** The keys of [st.session_state] that the tabs use. *)
Record session := mkSession {
  saved_overlays : list (string * loc);
  processed_overlay : option loc;
  processed_overlay_name : option string
}.

(** [make_color_transparent(img, ...)] on the store: [img.convert("RGBA")]
    is a new image, and [putdata] stores the new pixels in it. *)
Definition make_color_transparent_at (img : loc)
    (target_color : byte * byte * byte) (threshold : Z) : M loc :=
  conv ← copy img ;
  im ← read conv ;
  write conv (make_color_transparent im target_color threshold) ;;
  mret conv.

(** The "Remove Background" button (lines 137-141); [bg_color_rgb] is the
    parsed colour picker value. *)
Definition remove_background (overlays_dict : list (string * loc))
    (bg_overlay_choice : string) (bg_color_rgb : byte * byte * byte)
    (threshold : Z) (ss : session) : M session :=
  match dict_get overlays_dict bg_overlay_choice with
  | None => raise
  | Some original_img =>
      c ← copy original_img ;
      processed_img ← make_color_transparent_at c bg_color_rgb threshold ;
      mret (mkSession (saved_overlays ss) (Some processed_img)
              (Some bg_overlay_choice))
  end.

(** The "Use This in Generator" button (lines 181-183), shown only when a
    processed image is in the session: it is saved under
    [f"processed_{bg_overlay_choice}"] for the current choice. *)
Definition use_processed (bg_overlay_choice : string) (ss : session) : session :=
  match processed_overlay ss with
  | Some p =>
      mkSession (dict_set (saved_overlays ss)
                   ("processed_" ++ bg_overlay_choice)%string p)
        (processed_overlay ss) (processed_overlay_name ss)
  | None => ss
  end.

(* ------------------------------------------------------------------ *)
(** ** The "Single Image Generator" tab *)

(** The options of the overlay select box: ["None"] then the keys. *)
Definition overlay_options (overlays_dict : list (string * loc)) : list string :=
  "None"%string :: map fst overlays_dict.

(** [selected_overlay] (lines 458-463): [Some o] is the overlay passed to
    [generate_image] ([o = None] for Python's [None]); [None] is a
    [KeyError].  Without overlays no select box is shown. *)
Definition select_overlay (overlays_dict : list (string * loc))
    (overlay_choice : string) : option (option loc) :=
  match overlays_dict with
  | [] => Some None
  | _ =>
      if String.eqb overlay_choice "None" then Some None
      else match dict_get overlays_dict overlay_choice with
           | Some o => Some (Some o)
           | None => None
           end
  end.

(* ------------------------------------------------------------------ *)
(** ** The "County Map Generator" tab *)

(** [safe_county_name = "".join(c if c.isalnum() else "_" for c in county_name)] *)
Definition safe_county_name (county_name : string) : string :=
  PyStr.map_chars (fun c => if PyStr.is_alnum c then c else "_"%char) county_name.

(** The entry name of a county (lines 388-392). *)
Definition county_filename (use_template : bool) (state_name county_name : string)
    : string :=
  let safe := safe_county_name county_name in
  if use_template
  then ("verasight_survey_" ++ state_name ++ "_" ++ safe ++ ".png")%string
  else (state_name ++ "_" ++ safe ++ ".png")%string.

(** The label of an individual download button (line 444). *)
Definition county_display (state_name filename : string) : string :=
  PyStr.replace "_" " "
    (PyStr.replace ".png" ""
       (PyStr.replace (state_name ++ "_") "" filename)).

(** [subdivision] (lines 362-367). *)
Definition subdivision (selected_state : string) : string :=
  if String.eqb selected_state "AK" then "borough"
  else if String.eqb selected_state "LA" then "parish"
  else "county".

Section County.
Context `{Pillow}.

  (** The complete image of one county (lines 344-376): the plot
      [county_map_img] fitted into the overlay box (four times the box for
      Alaska) and composited on a copy of the template, with the text. *)
Definition county_image (cfg : config) (template : loc) (fnt : font)
      (selected_state : string) (county_map_img : loc) (county_name : string)
      : M loc :=
    canvas ← copy template ;
    county_map_resized ←
      (if String.eqb selected_state "AK"
       then fit_into county_map_img (overlay_max_w cfg * 4) (overlay_max_h cfg * 4)
       else fit_into county_map_img (overlay_max_w cfg) (overlay_max_h cfg)) ;
    alpha_composite canvas county_map_resized (overlay_x cfg, overlay_y cfg) ;;
    let text := (county_name ++ " " ++ subdivision selected_state ++
                 String "010" "residents needed!")%string in
    multiline_text canvas (text_x cfg, text_y cfg) text fnt
      (text_color_rgb cfg) (text_spacing cfg) (text_align cfg) ;;
    mret canvas.

  (** The loop over the counties of the state (lines 319-395); each row is
      a county name with the image of its plot.  The value stored under an
      entry name is the image the PNG bytes encode. *)
Fixpoint county_loop (cfg : config) (template : loc) (fnt : font)
      (use_template : bool) (selected_state state_name : string)
      (rows : list (string * loc)) (county_images : list (string * image))
      : M (list (string * image)) :=
    match rows with
    | [] => mret county_images
    | (county_name, map_img) :: rest =>
        out ← (if use_template
               then county_image cfg template fnt selected_state map_img county_name
               else mret map_img) ;
        png ← read out ;
        county_loop cfg template fnt use_template selected_state state_name rest
          (dict_set county_images
             (county_filename use_template state_name county_name) png)
    end.

End County.

(* ================================================================== *)
(** * Proofs *)

(* ------------------------------------------------------------------ *)
(** ** The double-precision arithmetic of [fit_into] *)

Module FloatFacts.

(** Binary digits. *)

Lemma digits2_pos_bounds (p : positive) :
  2 ^ (Z.pos (digits2_pos p) - 1) <= Z.pos p < 2 ^ Z.pos (digits2_pos p).
Proof.
  induction p as [p IH|p IH|]; simpl digits2_pos.
  - rewrite Pos2Z.inj_succ, (Pos2Z.inj_xI p).
    replace (Z.succ (Z.pos (digits2_pos p)) - 1)
      with ((Z.pos (digits2_pos p) - 1) + 1) by lia.
    rewrite Z.pow_add_r, Z.pow_succ_r, Z.pow_1_r by lia. lia.
  - rewrite Pos2Z.inj_succ, (Pos2Z.inj_xO p).
    replace (Z.succ (Z.pos (digits2_pos p)) - 1)
      with ((Z.pos (digits2_pos p) - 1) + 1) by lia.
    rewrite Z.pow_add_r, Z.pow_succ_r, Z.pow_1_r by lia. lia.
  - simpl. lia.
Qed.

Lemma Zdigits2_bounds (m : Z) :
  0 < m -> 2 ^ (Zdigits2 m - 1) <= m < 2 ^ Zdigits2 m.
Proof.
  destruct m as [|p|p]; try lia. intros _. apply digits2_pos_bounds.
Qed.

Lemma Zdigits2_pos (m : Z) : 0 < m -> 1 <= Zdigits2 m.
Proof. destruct m; simpl; lia. Qed.

Lemma Zdigits2_range (m a b : Z) :
  0 <= a -> 2 ^ a <= m < 2 ^ b -> a < Zdigits2 m <= b.
Proof.
  intros Ha Hm.
  assert (Hpos : 0 < m) by (pose proof (Z.pow_pos_nonneg 2 a); lia).
  pose proof (Zdigits2_bounds m Hpos) as Hd.
  pose proof (Zdigits2_pos m Hpos).
  split.
  - apply (Z.pow_lt_mono_r_iff 2); lia.
  - assert (Zdigits2 m - 1 < b); [|lia].
    destruct (Z.le_gt_cases 0 b).
    + apply (Z.pow_lt_mono_r_iff 2); lia.
    + rewrite (Z.pow_neg_r 2 b) in Hm by lia. lia.
Qed.

Lemma Zdigits2_unique (m k : Z) :
  1 <= k -> 2 ^ (k - 1) <= m < 2 ^ k -> Zdigits2 m = k.
Proof.
  intros Hk Hm. pose proof (Zdigits2_range m (k - 1) k ltac:(lia) Hm). lia.
Qed.

(** Right shifts of the rounding record. *)

Lemma shr_1_m (mrs : shr_record) :
  0 <= shr_m mrs -> shr_m (shr_1 mrs) = shr_m mrs / 2.
Proof.
  destruct mrs as [m r s]; simpl; intros Hm.
  destruct m as [|[p|p|]|p]; simpl; try reflexivity; try lia.
  - apply Z.div_unique with 1; lia.
  - apply Z.div_unique with 0; lia.
Qed.

Lemma iter_shr (p : positive) : forall mrs,
  0 <= shr_m mrs ->
  shr_m (SpecFloat.iter_pos shr_1 p mrs) = shr_m mrs / 2 ^ Z.pos p.
Proof.
  induction p as [p IH|p IH|]; intros mrs Hm; simpl SpecFloat.iter_pos.
  - assert (H1 : shr_m (shr_1 mrs) = shr_m mrs / 2) by (apply shr_1_m; lia).
    assert (H2 : 0 <= shr_m (shr_1 mrs)) by (rewrite H1; apply Z.div_pos; lia).
    pose proof (IH _ H2) as H3.
    assert (H4 : 0 <= shr_m (SpecFloat.iter_pos shr_1 p (shr_1 mrs))).
    { rewrite H3. apply Z.div_pos; [|apply Z.pow_pos_nonneg]; lia. }
    rewrite (IH _ H4), H3, H1.
    assert (0 < 2 ^ Z.pos p) by (apply Z.pow_pos_nonneg; lia).
    rewrite !Z.div_div by nia.
    f_equal. replace (Z.pos p~1) with (1 + Z.pos p + Z.pos p) by lia.
    rewrite !Z.pow_add_r by lia. lia.
  - pose proof (IH _ Hm) as H3.
    assert (H4 : 0 <= shr_m (SpecFloat.iter_pos shr_1 p mrs)).
    { rewrite H3. apply Z.div_pos; [|apply Z.pow_pos_nonneg]; lia. }
    rewrite (IH _ H4), H3.
    assert (0 < 2 ^ Z.pos p) by (apply Z.pow_pos_nonneg; lia).
    rewrite Z.div_div by lia.
    f_equal. replace (Z.pos p~0) with (Z.pos p + Z.pos p) by lia.
    rewrite Z.pow_add_r by lia. lia.
  - apply shr_1_m; lia.
Qed.

Lemma shr_spec (mrs : shr_record) (e n : Z) :
  0 <= n -> 0 <= shr_m mrs ->
  shr_m (fst (shr mrs e n)) = shr_m mrs / 2 ^ n /\ snd (shr mrs e n) = e + n.
Proof.
  intros Hn Hm. destruct n as [|p|p]; simpl.
  - rewrite Z.div_1_r. lia.
  - split; [apply iter_shr|]; lia.
  - lia.
Qed.

Lemma shr_record_of_loc_m (m : Z) (l : location) :
  shr_m (shr_record_of_loc m l) = m.
Proof. destruct l as [|[]]; reflexivity. Qed.

(** The first step of [binary_round_aux] on a mantissa of at least
    [prec] digits in the normal range. *)
Lemma shr_fexp_spec (m e : Z) (l : location) :
  0 < m -> 53 <= Zdigits2 m -> -1021 <= Zdigits2 m + e ->
  shr_m (fst (shr_fexp 53 1024 m e l)) = m / 2 ^ (Zdigits2 m - 53) /\
  snd (shr_fexp 53 1024 m e l) = Zdigits2 m + e - 53 /\
  (Zdigits2 m = 53 -> fst (shr_fexp 53 1024 m e l) = shr_record_of_loc m l).
Proof.
  intros Hm Hd Hr. unfold shr_fexp.
  assert (Hf : fexp 53 1024 (Zdigits2 m + e) = Zdigits2 m + e - 53)
    by (unfold fexp, emin; lia).
  rewrite Hf.
  replace (Zdigits2 m + e - 53 - e) with (Zdigits2 m - 53) by lia.
  destruct (shr_spec (shr_record_of_loc m l) e (Zdigits2 m - 53))
    as [H1 H2]; [lia|rewrite shr_record_of_loc_m; lia|].
  rewrite shr_record_of_loc_m in H1.
  split; [exact H1|split; [lia|]].
  intros H53. rewrite H53. reflexivity.
Qed.

Lemma rne_cases (m : Z) (l : location) :
  round_nearest_even m l = m \/ round_nearest_even m l = m + 1.
Proof.
  destruct l as [|[]]; simpl; auto. destruct (Z.even m); auto.
Qed.

(** [binary_round_aux] in the normal range, on integers: the result is
    the normal float [R * 2^(d + e - prec)] with [R] the truncated
    mantissa or its successor. *)
Lemma round_aux_Z (s : bool) (m e : Z) (l : location) :
  0 < m -> 53 <= Zdigits2 m -> -1021 <= Zdigits2 m + e ->
  Zdigits2 m + e <= 1000 ->
  exists M E R,
    binary_round_aux 53 1024 s m e l = S754_finite s M E /\
    2 ^ 52 <= Z.pos M < 2 ^ 53 /\
    Zdigits2 m + e - 53 <= E <= Zdigits2 m + e - 52 /\
    Z.pos M * 2 ^ (E - (Zdigits2 m + e - 53)) = R /\
    (R = m / 2 ^ (Zdigits2 m - 53) \/ R = m / 2 ^ (Zdigits2 m - 53) + 1) /\
    (l = loc_Exact -> Zdigits2 m = 53 -> R = m).
Proof.
  intros Hm Hd Hlo Hhi.
  pose proof (Zdigits2_bounds m Hm) as Hb.
  set (d := Zdigits2 m) in *.
  set (q := m / 2 ^ (d - 53)).
  assert (Hq : 2 ^ 52 <= q < 2 ^ 53).
  { assert (Hp : 0 < 2 ^ (d - 53)) by (apply Z.pow_pos_nonneg; lia).
    assert (E1 : 2 ^ (d - 1) = 2 ^ (d - 53) * 2 ^ 52)
      by (rewrite <- Z.pow_add_r by lia; f_equal; lia).
    assert (E2 : 2 ^ d = 2 ^ (d - 53) * 2 ^ 53)
      by (rewrite <- Z.pow_add_r by lia; f_equal; lia).
    split.
    - apply Z.div_le_lower_bound; lia.
    - apply Z.div_lt_upper_bound; lia. }
  destruct (shr_fexp_spec m e l Hm Hd Hlo) as (H1 & H2 & H3).
  unfold binary_round_aux.
  destruct (shr_fexp 53 1024 m e l) as [mrs' e'] eqn:Es1. simpl in H1, H2, H3.
  set (R := round_nearest_even (shr_m mrs') (loc_of_shr_record mrs')).
  assert (HR : R = q \/ R = q + 1)
    by (unfold R; rewrite H1; apply rne_cases).
  assert (HRe : l = loc_Exact -> d = 53 -> R = m).
  { intros -> H53. unfold R. rewrite (H3 H53). reflexivity. }
  assert (HRpos : 0 < R) by lia.
  assert (HdR : Zdigits2 R = 53 \/ (Zdigits2 R = 54 /\ R = 2 ^ 53)).
  { destruct HR as [HR|HR].
    - left. apply Zdigits2_unique; [lia|]. rewrite HR. exact Hq.
    - destruct (Z.eq_dec R (2 ^ 53)) as [E|E].
      + right. split; [|exact E]. apply Zdigits2_unique; [lia|]. rewrite E.
        split; [apply Z.pow_le_mono_r|apply Z.pow_lt_mono_r]; lia.
      + left. apply Zdigits2_unique; [lia|]. lia. }
  destruct (shr_fexp_spec R e' loc_Exact HRpos ltac:(lia) ltac:(lia))
    as (H4 & H5 & _).
  destruct (shr_fexp 53 1024 R e' loc_Exact) as [mrs'' e''] eqn:Es2.
  simpl in H4, H5.
  pose proof (Zdigits2_bounds R HRpos) as HbR.
  destruct HdR as [HdR|[HdR HR2]].
  - rewrite HdR in HbR, H5. unfold d in *.
    rewrite HdR, Z.sub_diag, Z.pow_0_r, Z.div_1_r in H4.
    rewrite H4. destruct R as [|M|M] eqn:ER; try lia.
    rewrite (proj2 (Z.leb_le _ _)) by lia.
    exists M, e'', (Z.pos M). split; [reflexivity|].
    split; [lia|]. split; [lia|].
    split; [rewrite H5, H2; replace (53 + (Zdigits2 m + e - 53) - 53 - (Zdigits2 m + e - 53)) with 0 by lia; lia|].
    split; [|exact HRe]. exact HR.
  - rewrite HdR in HbR, H5. unfold d in *.
    rewrite HdR, HR2 in H4. replace (54 - 53) with 1 in H4 by lia.
    assert (HM : shr_m mrs'' = 2 ^ 52) by (rewrite H4; reflexivity).
    rewrite HM. simpl (2 ^ 52).
    rewrite (proj2 (Z.leb_le _ _)) by lia.
    eexists _, e'', R. split; [reflexivity|].
    split; [simpl; lia|]. split; [lia|].
    split; [rewrite H5, H2, HR2; replace (54 + (Zdigits2 m + e - 53) - 53 - (Zdigits2 m + e - 53)) with 1 by lia; reflexivity|].
    split; [exact HR|exact HRe].
Qed.

(** Powers of two in [R]. *)

Local Open Scope R_scope.

Lemma p2_add (a b : Z) : p2 (a + b) = p2 a * p2 b.
Proof. unfold p2. apply powerRZ_add. lra. Qed.

Lemma p2_pos (e : Z) : 0 < p2 e.
Proof. unfold p2. apply powerRZ_lt. lra. Qed.

Lemma p2_nat (e : Z) : (0 <= e)%Z -> p2 e = IZR (2 ^ e).
Proof.
  intros He. destruct e as [|p|p]; [reflexivity| |lia].
  unfold p2. rewrite <- Zpower_pos_powerRZ. reflexivity.
Qed.

Lemma p2_opp_mul (e : Z) : p2 e * p2 (- e) = 1.
Proof. rewrite <- p2_add, Z.add_opp_diag_r. reflexivity. Qed.

Lemma p2_le (a b : Z) : (a <= b)%Z -> p2 a <= p2 b.
Proof.
  intros H. replace b with (a + (b - a))%Z by lia. rewrite p2_add, (p2_nat (b - a)) by lia.
  pose proof (p2_pos a).
  assert (1 <= IZR (2 ^ (b - a))).
  { apply IZR_le. pose proof (Z.pow_pos_nonneg 2 (b - a)). lia. }
  nra.
Qed.

Lemma eps_val : eps = / 4503599627370496.
Proof.
  unfold eps, p2, powerRZ. f_equal. rewrite pow_IZR. reflexivity.
Qed.

(** [binary_round_aux] on a real bracketed by its integer arguments:
    a normal float within a relative error below [eps]. *)
Lemma round_aux_R (s : bool) (m e : Z) (l : location) (x : R) :
  (0 < m)%Z -> (53 <= Zdigits2 m)%Z -> (-1021 <= Zdigits2 m + e)%Z ->
  (Zdigits2 m + e <= 1000)%Z ->
  IZR m * p2 e <= x < IZR (m + 1) * p2 e ->
  exists M E,
    binary_round_aux 53 1024 s m e l = S754_finite s M E /\
    (2 ^ 52 <= Z.pos M < 2 ^ 53)%Z /\
    (Zdigits2 m + e - 53 <= E <= Zdigits2 m + e - 52)%Z /\
    Rabs (IZR (Z.pos M) * p2 E - x) <= eps * x /\
    (l = loc_Exact -> Zdigits2 m = 53%Z -> IZR (Z.pos M) * p2 E = IZR m * p2 e).
Proof.
  intros Hm Hd Hlo Hhi Hx.
  destruct (round_aux_Z s m e l Hm Hd Hlo Hhi)
    as (M & E & R & Hr & HM & HE & HMR & HR & HRe).
  pose proof (Zdigits2_bounds m Hm) as Hb.
  set (d := Zdigits2 m) in *.
  set (k := (d - 53)%Z) in *.
  set (q := (m / 2 ^ k)%Z) in *.
  assert (Hk : (0 < 2 ^ k)%Z) by (apply Z.pow_pos_nonneg; lia).
  assert (HV : IZR (Z.pos M) * p2 E = IZR R * p2 (k + e)).
  { rewrite <- HMR, mult_IZR, <- (p2_nat (E - (d + e - 53))) by lia.
    rewrite Rmult_assoc, <- p2_add. f_equal. f_equal. unfold k. lia. }
  assert (Hpk : p2 (k + e) = IZR (2 ^ k) * p2 e) by (rewrite p2_add, p2_nat by lia; reflexivity).
  assert (Hq1 : (2 ^ k * q <= m)%Z) by (apply Z.mul_div_le; lia).
  assert (Hq2 : (m + 1 <= 2 ^ k * (q + 1))%Z).
  { pose proof (Z.mul_succ_div_gt m (2 ^ k) Hk). unfold q. lia. }
  apply IZR_le in Hq1, Hq2. rewrite mult_IZR in Hq1, Hq2.
  pose proof (p2_pos e) as Hpe.
  assert (Hlow : IZR q * p2 (k + e) <= x).
  { rewrite Hpk. apply Rle_trans with (IZR m * p2 e); [|lra]. nra. }
  assert (Hup : x < IZR (q + 1) * p2 (k + e)).
  { rewrite Hpk. apply Rlt_le_trans with (IZR (m + 1) * p2 e); [lra|]. nra. }
  assert (Hxm : p2 (k + e) <= eps * x).
  { unfold eps. rewrite <- (Rmult_1_l (p2 (k + e))).
    assert (Hm1 : IZR (2 ^ (d - 1)) <= IZR m) by (apply IZR_le; lia).
    rewrite <- (p2_nat (d - 1)) in Hm1 by lia.
    replace (k + e)%Z with (-52 + ((d - 1) + e))%Z by (unfold k; lia).
    rewrite !p2_add. pose proof (p2_pos (-52)).
    assert (p2 (d - 1) * p2 e <= x).
    { apply Rle_trans with (IZR m * p2 e); [apply Rmult_le_compat_r|]; lra. }
    rewrite Rmult_1_l. apply Rmult_le_compat_l; lra. }
  exists M, E. split; [exact Hr|]. split; [exact HM|]. split; [exact HE|].
  split.
  - rewrite HV. rewrite plus_IZR in Hup. pose proof (p2_pos (k + e)).
    destruct HR as [-> | ->]; [|rewrite plus_IZR]; apply Rabs_le; lra.
  - intros Hl H53. rewrite HV, (HRe Hl H53). f_equal. f_equal. unfold k. lia.
Qed.


Lemma Rabs_le_between (x a : R) : Rabs x <= a -> - a <= x <= a.
Proof. unfold Rabs. destruct (Rcase_abs x); lra. Qed.

Lemma pos_iter_xO (p k : positive) :
  Z.pos (Pos.iter xO p k) = (Z.pos p * 2 ^ Z.pos k)%Z.
Proof.
  induction k as [|k IH] using Pos.peano_ind.
  - simpl. lia.
  - rewrite Pos.iter_succ, (Pos2Z.inj_xO (Pos.iter xO p k)), IH,
      Pos2Z.inj_succ, Z.pow_succ_r by lia. lia.
Qed.

Lemma digits_normal (M : positive) :
  (2 ^ 52 <= Z.pos M < 2 ^ 53)%Z -> Zdigits2 (Z.pos M) = 53%Z.
Proof. intros H. apply Zdigits2_unique; [lia|exact H]. Qed.

(** [float(n)] is exact on the integers below [2^24]. *)
Lemma float_of_int_spec (n : Z) :
  (1 <= n <= 2 ^ 24)%Z ->
  exists M E, Py.float_of_int n = S754_finite false M E /\
    (2 ^ 52 <= Z.pos M < 2 ^ 53)%Z /\ (-52 <= E <= -27)%Z /\
    IZR (Z.pos M) * p2 E = IZR n.
Proof.
  intros Hn. destruct n as [|p|p]; try lia.
  unfold Py.float_of_int, Py.prec, Py.emax, binary_normalize, binary_round.
  pose proof (digits2_pos_bounds p) as Hb.
  assert (Hd : (0 < Zdigits2 (Z.pos p) <= 25)%Z).
  { apply Zdigits2_range; [lia|]. split; [simpl; lia|].
    apply Z.le_lt_trans with (2 ^ 24)%Z; [lia|reflexivity]. }
  simpl Zdigits2 in Hd.
  set (d := Z.pos (digits2_pos p)) in *.
  assert (Hf : fexp 53 1024 (d + 0) = (d - 53)%Z) by (unfold fexp, emin; lia).
  unfold shl_align. rewrite Hf.
  set (k := Z.to_pos (53 - d)).
  assert (Hk : Z.pos k = (53 - d)%Z) by (unfold k; rewrite Z2Pos.id; lia).
  replace (d - 53 - 0)%Z with (Z.neg k) by lia.
  cbv beta iota zeta.
  pose proof (pos_iter_xO p k) as Hit.
  set (mz := Pos.iter xO p k) in *.
  assert (Hmz : (2 ^ 52 <= Z.pos mz < 2 ^ 53)%Z).
  { assert (E1 : (2 ^ (d - 1) * 2 ^ Z.pos k = 2 ^ 52)%Z)
      by (rewrite <- Z.pow_add_r by lia; f_equal; lia).
    assert (E2 : (2 ^ d * 2 ^ Z.pos k = 2 ^ 53)%Z)
      by (rewrite <- Z.pow_add_r by lia; f_equal; lia).
    assert (0 < 2 ^ Z.pos k)%Z by (apply Z.pow_pos_nonneg; lia).
    rewrite Hit. nia. }
  assert (Hx : IZR (Z.pos mz) * p2 (d - 53) = IZR (Z.pos p)).
  { rewrite Hit, mult_IZR, <- (p2_nat (Z.pos k)) by lia.
    replace (d - 53)%Z with (- Z.pos k)%Z by lia.
    rewrite Rmult_assoc, p2_opp_mul. ring. }
  pose proof (p2_pos (d - 53)).
  destruct (round_aux_R false (Z.pos mz) (d - 53) loc_Exact (IZR (Z.pos p)))
    as (M & E & Hr & HM & HE & _ & Hex);
    [lia|rewrite digits_normal by exact Hmz; lia
        |rewrite digits_normal by exact Hmz; lia
        |rewrite digits_normal by exact Hmz; lia
        |rewrite plus_IZR; lra|].
  rewrite digits_normal in HE by exact Hmz.
  exists M, E. split; [exact Hr|]. split; [exact HM|]. split; [lia|].
  rewrite Hex by (try reflexivity; apply digits_normal; exact Hmz). exact Hx.
Qed.

(** Multiplication of two positive normal floats. *)
Lemma mul_spec (Ma Mb : positive) (Ea Eb : Z) :
  (2 ^ 52 <= Z.pos Ma < 2 ^ 53)%Z -> (2 ^ 52 <= Z.pos Mb < 2 ^ 53)%Z ->
  (-1000 <= Ea + Eb <= 800)%Z ->
  exists M E,
    SFmul 53 1024 (S754_finite false Ma Ea) (S754_finite false Mb Eb)
      = S754_finite false M E /\
    (2 ^ 52 <= Z.pos M < 2 ^ 53)%Z /\ (Ea + Eb + 52 <= E <= Ea + Eb + 54)%Z /\
    Rabs (IZR (Z.pos M) * p2 E
          - (IZR (Z.pos Ma) * p2 Ea) * (IZR (Z.pos Mb) * p2 Eb))
      <= eps * ((IZR (Z.pos Ma) * p2 Ea) * (IZR (Z.pos Mb) * p2 Eb)).
Proof.
  intros Ha Hb He.
  assert (Hd : (104 < Zdigits2 (Z.pos (Ma * Mb)) <= 106)%Z).
  { apply Zdigits2_range; [lia|]. rewrite Pos2Z.inj_mul.
    replace (2 ^ 104)%Z with (2 ^ 52 * 2 ^ 52)%Z by reflexivity.
    replace (2 ^ 106)%Z with (2 ^ 53 * 2 ^ 53)%Z by reflexivity. nia. }
  assert (Hx : (IZR (Z.pos Ma) * p2 Ea) * (IZR (Z.pos Mb) * p2 Eb)
               = IZR (Z.pos (Ma * Mb)) * p2 (Ea + Eb)).
  { rewrite Pos2Z.inj_mul, mult_IZR, p2_add. ring. }
  pose proof (p2_pos (Ea + Eb)).
  destruct (round_aux_R false (Z.pos (Ma * Mb)) (Ea + Eb) loc_Exact
              ((IZR (Z.pos Ma) * p2 Ea) * (IZR (Z.pos Mb) * p2 Eb)))
    as (M & E & Hr & HM & HE & Herr & _); [lia|lia|lia|lia| |].
  { rewrite Hx, plus_IZR. lra. }
  exists M, E. split; [exact Hr|]. split; [exact HM|]. split; [lia|exact Herr].
Qed.

(** Division of two positive normal floats. *)
Lemma div_spec (Ma Mb : positive) (Ea Eb : Z) :
  (2 ^ 52 <= Z.pos Ma < 2 ^ 53)%Z -> (2 ^ 52 <= Z.pos Mb < 2 ^ 53)%Z ->
  (-900 <= Ea - Eb <= 900)%Z ->
  exists M E,
    SFdiv 53 1024 (S754_finite false Ma Ea) (S754_finite false Mb Eb)
      = S754_finite false M E /\
    (2 ^ 52 <= Z.pos M < 2 ^ 53)%Z /\ (Ea - Eb - 53 <= E <= Ea - Eb - 51)%Z /\
    Rabs (IZR (Z.pos M) * p2 E
          - (IZR (Z.pos Ma) * p2 Ea) / (IZR (Z.pos Mb) * p2 Eb))
      <= eps * ((IZR (Z.pos Ma) * p2 Ea) / (IZR (Z.pos Mb) * p2 Eb)).
Proof.
  intros Ha Hb He.
  change (SFdiv 53 1024 (S754_finite false Ma Ea) (S754_finite false Mb Eb))
    with (let '(mz, ez, lz) := SFdiv_core_binary 53 1024 (Z.pos Ma) Ea (Z.pos Mb) Eb in
          binary_round_aux 53 1024 false mz ez lz).
  unfold SFdiv_core_binary.
  rewrite (digits_normal Ma Ha), (digits_normal Mb Hb).
  assert (He' : Z.min (fexp 53 1024 (53 + Ea - (53 + Eb))) (Ea - Eb)
                = (Ea - Eb - 53)%Z) by (unfold fexp, emin; lia).
  rewrite He'. replace (Ea - Eb - (Ea - Eb - 53))%Z with 53%Z by lia.
  cbv beta iota zeta.
  rewrite Z.shiftl_mul_pow2 by lia.
  set (a := (Z.pos Ma * 2 ^ 53)%Z).
  destruct (Z.div_eucl a (Z.pos Mb)) as [q r] eqn:Ediv.
  assert (Hq : q = (a / Z.pos Mb)%Z) by (unfold Z.div; rewrite Ediv; reflexivity).
  assert (Hq1 : (Z.pos Mb * q <= a)%Z) by (rewrite Hq; apply Z.mul_div_le; lia).
  assert (Hq2 : (a < Z.pos Mb * (q + 1))%Z)
    by (rewrite Hq; apply Z.mul_succ_div_gt; lia).
  assert (Hqb : (2 ^ 52 <= q < 2 ^ 54)%Z).
  { unfold a in Hq1, Hq2. split.
    - assert (~ (q < 2 ^ 52)%Z); [|lia]. intros Hlt.
      assert (q + 1 <= 2 ^ 52)%Z by lia.
      replace (2 ^ 53)%Z with (2 * 2 ^ 52)%Z in * by reflexivity. nia.
    - assert (~ (2 ^ 54 <= q)%Z); [|lia]. intros Hge.
      replace (2 ^ 54)%Z with (2 * 2 ^ 53)%Z in * by reflexivity. nia. }
  assert (Hd : (52 < Zdigits2 q <= 54)%Z) by (apply Zdigits2_range; lia).
  set (x := (IZR (Z.pos Ma) * p2 Ea) / (IZR (Z.pos Mb) * p2 Eb)).
  assert (HMb : 0 < IZR (Z.pos Mb)) by (apply IZR_lt; lia).
  pose proof (p2_pos Eb). pose proof (p2_pos (Ea - Eb - 53)).
  assert (Hx : x * IZR (Z.pos Mb) = IZR a * p2 (Ea - Eb - 53)).
  { unfold x, a. rewrite mult_IZR, <- (p2_nat 53) by lia.
    replace Ea with ((Ea - Eb - 53) + 53 + Eb)%Z at 1 by lia.
    rewrite !p2_add. field. lra. }
  apply IZR_le in Hq1. apply IZR_lt in Hq2. rewrite mult_IZR in Hq1, Hq2.
  destruct (round_aux_R false q (Ea - Eb - 53) (new_location (Z.pos Mb) r) x)
    as (M & E & Hr & HM & HE & Herr & _); [lia|lia|lia|lia| |].
  { split.
    - apply (Rmult_le_reg_r (IZR (Z.pos Mb))); [exact HMb|]. rewrite Hx. nra.
    - apply (Rmult_lt_reg_r (IZR (Z.pos Mb))); [exact HMb|]. rewrite Hx. nra. }
  exists M, E. split; [exact Hr|]. split; [exact HM|]. split; [lia|exact Herr].
Qed.

(** A normal float of smaller exponent is smaller. *)
Lemma exp_lt_val (Ma Mb : positive) (Ea Eb : Z) :
  (2 ^ 52 <= Z.pos Ma < 2 ^ 53)%Z -> (2 ^ 52 <= Z.pos Mb < 2 ^ 53)%Z ->
  (Ea < Eb)%Z -> IZR (Z.pos Ma) * p2 Ea < IZR (Z.pos Mb) * p2 Eb.
Proof.
  intros Ha Hb He.
  assert (HA : IZR (Z.pos Ma) < 9007199254740992) by (apply IZR_lt; simpl in Ha; lia).
  assert (HB : 4503599627370496 <= IZR (Z.pos Mb)) by (apply IZR_le; simpl in Hb; lia).
  assert (H2 : p2 (Ea + 1) = 2 * p2 Ea) by (rewrite p2_add; unfold p2 at 2; simpl; ring).
  pose proof (p2_le (Ea + 1) Eb ltac:(lia)). pose proof (p2_pos Ea).
  apply Rlt_le_trans with (9007199254740992 * p2 Ea); [nra|].
  apply Rle_trans with (4503599627370496 * p2 Eb); nra.
Qed.

Lemma ltb_spec (Ma Mb : positive) (Ea Eb : Z) :
  (2 ^ 52 <= Z.pos Ma < 2 ^ 53)%Z -> (2 ^ 52 <= Z.pos Mb < 2 ^ 53)%Z ->
  SFltb (S754_finite false Ma Ea) (S754_finite false Mb Eb) = true <->
  IZR (Z.pos Ma) * p2 Ea < IZR (Z.pos Mb) * p2 Eb.
Proof.
  intros Ha Hb. unfold SFltb, SFcompare.
  destruct (Z.compare_spec Ea Eb) as [<-|He|He].
  - change (Pos.compare_cont Eq Ma Mb) with (Pos.compare Ma Mb).
    pose proof (p2_pos Ea).
    destruct (Pos.compare_spec Ma Mb) as [<-|Hm|Hm]; split; intros H';
      try discriminate; try reflexivity.
    + lra.
    + apply Rmult_lt_compat_r; [lra|]. apply IZR_lt. lia.
    + assert (IZR (Z.pos Mb) < IZR (Z.pos Ma)) by (apply IZR_lt; lia). nra.
  - split; [intros _|reflexivity]. apply exp_lt_val; assumption.
  - split; [discriminate|]. intros H'.
    pose proof (exp_lt_val Mb Ma Eb Ea Hb Ha He). lra.
Qed.

Lemma min_float_cases (Ma Mb : positive) (Ea Eb : Z) :
  (2 ^ 52 <= Z.pos Ma < 2 ^ 53)%Z -> (2 ^ 52 <= Z.pos Mb < 2 ^ 53)%Z ->
  (Py.min_float (S754_finite false Ma Ea) (S754_finite false Mb Eb)
     = S754_finite false Ma Ea /\
   IZR (Z.pos Ma) * p2 Ea <= IZR (Z.pos Mb) * p2 Eb) \/
  (Py.min_float (S754_finite false Ma Ea) (S754_finite false Mb Eb)
     = S754_finite false Mb Eb /\
   IZR (Z.pos Mb) * p2 Eb < IZR (Z.pos Ma) * p2 Ea).
Proof.
  intros Ha Hb. unfold Py.min_float, Py.prec, Py.emax.
  pose proof (ltb_spec Mb Ma Eb Ea Hb Ha) as H.
  destruct (SFltb (S754_finite false Mb Eb) (S754_finite false Ma Ea)).
  - right. split; [reflexivity|]. apply H. reflexivity.
  - left. split; [reflexivity|]. apply Rnot_lt_le. intros H'.
    apply H in H'. discriminate.
Qed.

(** [int(x)] of a positive finite float is its floor. *)
Lemma trunc_spec (M : positive) (E : Z) :
  exists z, Py.trunc (S754_finite false M E) = Some z /\
    IZR z <= IZR (Z.pos M) * p2 E < IZR z + 1.
Proof.
  unfold Py.trunc. destruct (Z.leb_spec 0 E) as [H|H].
  - eexists. split; [reflexivity|].
    rewrite p2_nat, <- mult_IZR by lia. lra.
  - eexists. split; [reflexivity|].
    set (z := (Z.pos M / 2 ^ (- E))%Z).
    assert (Hk : (0 < 2 ^ (- E))%Z) by (apply Z.pow_pos_nonneg; lia).
    assert (H1 : (2 ^ (- E) * z <= Z.pos M)%Z) by (apply Z.mul_div_le; lia).
    assert (H2 : (Z.pos M < 2 ^ (- E) * (z + 1))%Z)
      by (apply Z.mul_succ_div_gt; lia).
    apply IZR_le in H1. apply IZR_lt in H2. rewrite mult_IZR in H1, H2.
    rewrite plus_IZR in H2.
    pose proof (p2_opp_mul E) as Hinv. rewrite (p2_nat (- E)) in Hinv by lia.
    pose proof (p2_pos E).
    assert (Ez : IZR z = (IZR (2 ^ (- E)) * IZR z) * p2 E)
      by (rewrite <- (Rmult_1_l (IZR z)) at 1; rewrite <- Hinv; ring).
    assert (Ez1 : IZR z + 1 = (IZR (2 ^ (- E)) * (IZR z + 1)) * p2 E)
      by (rewrite <- (Rmult_1_l (IZR z + 1)) at 1; rewrite <- Hinv; ring).
    split.
    + rewrite Ez. apply Rmult_le_compat_r; lra.
    + rewrite Ez1. apply Rmult_lt_compat_r; lra.
Qed.

Lemma eps_facts : 0 < eps /\ eps * 281474976710656 = / 16.
Proof. rewrite eps_val. split; [apply Rinv_0_lt_compat; lra|field]. Qed.

(** Relative errors of [n * scale] and [int] of it. *)
Lemma min_rel (s ra rb va vb vs : R) :
  0 < s -> s <= ra -> s <= rb -> ra = s \/ rb = s ->
  Rabs (va - ra) <= eps * ra -> Rabs (vb - rb) <= eps * rb ->
  (vs = va /\ va <= vb) \/ (vs = vb /\ vb < va) ->
  s * (1 - eps) <= vs <= s * (1 + eps).
Proof.
  intros Hs Ha Hb Heq Hva Hvb Hvs.
  apply Rabs_le_between in Hva, Hvb.
  destruct eps_facts as [He He'].
  assert (He1 : eps < 1) by lra.
  assert (s * (1 - eps) <= ra * (1 - eps)) by (apply Rmult_le_compat_r; lra).
  assert (s * (1 - eps) <= rb * (1 - eps)) by (apply Rmult_le_compat_r; lra).
  destruct Heq as [<-|<-]; destruct Hvs as [[-> ?]|[-> ?]]; split; nra.
Qed.

Lemma mul_rel (a s vs P : R) :
  0 < a -> 0 < s -> s * (1 - eps) <= vs <= s * (1 + eps) ->
  Rabs (P - a * vs) <= eps * (a * vs) ->
  (a * s) * ((1 - eps) * (1 - eps)) <= P <= (a * s) * ((1 + eps) * (1 + eps)).
Proof.
  intros Ha Hs Hvs HP. apply Rabs_le_between in HP.
  destruct eps_facts as [He He'].
  assert (He1 : eps < 1) by lra.
  assert (H1 : a * (s * (1 - eps)) * (1 - eps) <= a * vs * (1 - eps)).
  { apply Rmult_le_compat_r; [lra|]. apply Rmult_le_compat_l; lra. }
  assert (H2 : a * vs * (1 + eps) <= a * (s * (1 + eps)) * (1 + eps)).
  { apply Rmult_le_compat_r; [lra|]. apply Rmult_le_compat_l; lra. }
  split; nra.
Qed.

Lemma trunc_near (N d z : Z) (P y : R) :
  (1 <= d)%Z -> (0 <= N <= 2 ^ 48)%Z -> y * IZR d = IZR N ->
  IZR z <= P < IZR z + 1 ->
  y * ((1 - eps) * (1 - eps)) <= P <= y * ((1 + eps) * (1 + eps)) ->
  (N / d - 1 <= z <= N / d)%Z.
Proof.
  intros Hd HN Hy Hz HP.
  destruct eps_facts as [He He'].
  set (f := (N / d)%Z).
  assert (Hf1 : (d * f <= N)%Z) by (apply Z.mul_div_le; lia).
  assert (Hf2 : (N + 1 <= d * (f + 1))%Z)
    by (pose proof (Z.mul_succ_div_gt N d ltac:(lia)); unfold f; lia).
  apply IZR_le in Hf1, Hf2. rewrite mult_IZR in Hf1, Hf2.
  rewrite plus_IZR in Hf2. rewrite plus_IZR in Hf2.
  assert (HdR : 1 <= IZR d) by (apply IZR_le; lia).
  assert (HNR : 0 <= IZR N <= 281474976710656)
    by (split; apply IZR_le; simpl in HN; lia).
  assert (Hy0 : 0 <= y) by nra.
  assert (HyN : y <= IZR N) by nra.
  assert (Hyf : IZR f <= y) by nra.
  assert (Hey : eps * y <= / 16).
  { rewrite <- He'. apply Rmult_le_compat_l; lra. }
  assert (Hey0 : 0 <= eps * y) by nra.
  assert (Heey : eps * (eps * y) <= eps * y).
  { rewrite <- (Rmult_1_l (eps * y)) at 2. apply Rmult_le_compat_r; [lra|].
    lra. }
  split.
  - assert (~ (z <= f - 2)%Z); [|lia]. intros Hlt.
    apply IZR_le in Hlt. rewrite minus_IZR in Hlt.
    assert (y * ((1 - eps) * (1 - eps)) >= y - 2 * (eps * y)) by nra.
    lra.
  - assert (~ (f + 1 <= z)%Z); [|lia]. intros Hge.
    apply IZR_le in Hge. rewrite plus_IZR in Hge.
    assert (Hup : y * ((1 + eps) * (1 + eps)) <= y + 3 * (eps * y)) by nra.
    assert (Hd3 : (y + 3 * (eps * y)) * IZR d < (IZR f + 1) * IZR d).
    { assert (eps * IZR N <= / 16) by (rewrite <- He'; apply Rmult_le_compat_l; lra).
      replace ((y + 3 * (eps * y)) * IZR d) with (IZR N + 3 * (eps * IZR N))
        by (rewrite <- Hy; ring).
      lra. }
    apply Rmult_lt_reg_r in Hd3; lra.
Qed.

(** [fit_into]'s arithmetic on sides and bounds up to [2^24]. *)
Lemma fit_scale_floor (w h mw mh : Z) :
  (1 <= w <= 2 ^ 24)%Z -> (1 <= h <= 2 ^ 24)%Z ->
  (1 <= mw <= 2 ^ 24)%Z -> (1 <= mh <= 2 ^ 24)%Z ->
  exists sw sh,
    Py.true_div mw w = Some sw /\ Py.true_div mh h = Some sh /\
    exists w' h',
    Py.trunc (Py.mul_int_float w (Py.min_float sw sh)) = Some w' /\
    Py.trunc (Py.mul_int_float h (Py.min_float sw sh)) = Some h' /\
    (fst (fit_into_exact_size w h mw mh) - 1 <= w'
       <= fst (fit_into_exact_size w h mw mh))%Z /\
    (snd (fit_into_exact_size w h mw mh) - 1 <= h'
       <= snd (fit_into_exact_size w h mw mh))%Z.
Proof.
  intros Hw Hh Hmw Hmh.
  destruct (float_of_int_spec w Hw) as (Mw & Ew & Fw & HMw & HEw & Vw).
  destruct (float_of_int_spec h Hh) as (Mh & Eh & Fh & HMh & HEh & Vh).
  destruct (float_of_int_spec mw Hmw) as (Mmw & Emw & Fmw & HMmw & HEmw & Vmw).
  destruct (float_of_int_spec mh Hmh) as (Mmh & Emh & Fmh & HMmh & HEmh & Vmh).
  unfold Py.true_div, fit_into_exact_size. simpl fst. simpl snd.
  rewrite (proj2 (Z.eqb_neq w 0)), (proj2 (Z.eqb_neq h 0)) by lia.
  rewrite Fw, Fh, Fmw, Fmh. unfold Py.prec, Py.emax.
  do 2 eexists. split; [reflexivity|]. split; [reflexivity|].
  destruct (div_spec Mmw Mw Emw Ew HMmw HMw ltac:(lia))
    as (Ma & Ea & Da & HMa & HEa & Ra).
  destruct (div_spec Mmh Mh Emh Eh HMmh HMh ltac:(lia))
    as (Mb & Eb & Db & HMb & HEb & Rb).
  rewrite Da, Db. rewrite Vw, Vmw in Ra. rewrite Vh, Vmh in Rb.
  set (S := Z.min (mw * h) (mh * w)).
  assert (HwR : 1 <= IZR w) by (apply IZR_le; lia).
  assert (HhR : 1 <= IZR h) by (apply IZR_le; lia).
  assert (HmwR : 1 <= IZR mw) by (apply IZR_le; lia).
  assert (HmhR : 1 <= IZR mh) by (apply IZR_le; lia).
  set (s := IZR S / (IZR w * IZR h)).
  assert (E1 : IZR mw / IZR w = IZR (mw * h) / (IZR w * IZR h))
    by (rewrite mult_IZR; field; lra).
  assert (E2 : IZR mh / IZR h = IZR (mh * w) / (IZR w * IZR h))
    by (rewrite mult_IZR; field; lra).
  assert (Hinv : 0 < / (IZR w * IZR h)) by (apply Rinv_0_lt_compat; nra).
  assert (Hs0 : 0 < s).
  { unfold s. apply Rmult_lt_0_compat; [|exact Hinv].
    apply IZR_lt. unfold S. lia. }
  assert (Hsa : s <= IZR mw / IZR w).
  { unfold s. rewrite E1. unfold Rdiv. apply Rmult_le_compat_r; [lra|].
    apply IZR_le. unfold S. lia. }
  assert (Hsb : s <= IZR mh / IZR h).
  { unfold s. rewrite E2. unfold Rdiv. apply Rmult_le_compat_r; [lra|].
    apply IZR_le. unfold S. lia. }
  assert (Hseq : IZR mw / IZR w = s \/ IZR mh / IZR h = s).
  { unfold s, S. rewrite E1, E2.
    destruct (Z.min_spec (mw * h) (mh * w)) as [[_ ->]|[_ ->]]; auto. }
  assert (Hscale : exists Ms Es,
    Py.min_float (S754_finite false Ma Ea) (S754_finite false Mb Eb)
      = S754_finite false Ms Es /\
    (2 ^ 52 <= Z.pos Ms < 2 ^ 53)%Z /\ (-80 <= Es <= -20)%Z /\
    s * (1 - eps) <= IZR (Z.pos Ms) * p2 Es <= s * (1 + eps)).
  { destruct (min_float_cases Ma Mb Ea Eb HMa HMb) as [[-> Hle]|[-> Hlt]].
    - exists Ma, Ea. split; [reflexivity|]. split; [exact HMa|]. split; [lia|].
      eapply (min_rel s _ _ _ _ _ Hs0 Hsa Hsb Hseq Ra Rb). left; split; auto.
    - exists Mb, Eb. split; [reflexivity|]. split; [exact HMb|]. split; [lia|].
      eapply (min_rel s _ _ _ _ _ Hs0 Hsa Hsb Hseq Ra Rb). right; split; auto. }
  destruct Hscale as (Ms & Es & -> & HMs & HEs & Hvs).
  unfold Py.mul_int_float, Py.prec, Py.emax. rewrite Fw, Fh.
  destruct (mul_spec Mw Ms Ew Es HMw HMs ltac:(lia))
    as (Pw & Fpw & Dw & HPw & _ & Rw).
  destruct (mul_spec Mh Ms Eh Es HMh HMs ltac:(lia))
    as (Ph & Fph & Dh & HPh & _ & Rh).
  rewrite Dw, Dh. rewrite Vw in Rw. rewrite Vh in Rh.
  destruct (trunc_spec Pw Fpw) as (zw & Tw & Hzw).
  destruct (trunc_spec Ph Fph) as (zh & Th & Hzh).
  rewrite Tw, Th. exists zw, zh.
  assert (HS48 : (0 <= S <= 2 ^ 48)%Z).
  { unfold S. split; [lia|]. apply Z.le_trans with (mw * h)%Z; [lia|].
    replace (2 ^ 48)%Z with (2 ^ 24 * 2 ^ 24)%Z by reflexivity. nia. }
  split; [reflexivity|]. split; [reflexivity|]. split.
  - apply (trunc_near S h zw (IZR (Z.pos Pw) * p2 Fpw) (IZR w * s));
      [lia|exact HS48| |exact Hzw|].
    + unfold s. field. lra.
    + eapply (mul_rel (IZR w) s _ _); [lra|exact Hs0|exact Hvs|exact Rw].
  - apply (trunc_near S w zh (IZR (Z.pos Ph) * p2 Fph) (IZR h * s));
      [lia|exact HS48| |exact Hzh|].
    + unfold s. field. lra.
    + eapply (mul_rel (IZR h) s _ _); [lra|exact Hs0|exact Hvs|exact Rh].
Qed.

End FloatFacts.

(** C3 (amended): for sides and bounds between 1 and 2^24, [fit_into]
    asks Pillow for the size [(w', h')] where [w'] is [floor(w*s)] or one
    less and [h'] is [floor(h*s)] or one less, [s] the exact
    [min(max_w/w, max_h/h)]; so neither side exceeds its bound.  The call
    returns a new image of that size when both sides are at least 1 and
    raises otherwise. *)
Theorem fit_into_size `{Pillow} (img : loc) (im : image) (max_w max_h : Z)
    (st : store) (Him : heap st !! img = Some im)
    (Hw : (1 <= img_w im <= 2 ^ 24)%Z) (Hh : (1 <= img_h im <= 2 ^ 24)%Z)
    (Hmw : (1 <= max_w <= 2 ^ 24)%Z) (Hmh : (1 <= max_h <= 2 ^ 24)%Z) :
  exists w' h',
    (fst (fit_into_exact_size (img_w im) (img_h im) max_w max_h) - 1 <= w'
       <= fst (fit_into_exact_size (img_w im) (img_h im) max_w max_h))%Z /\
    (snd (fit_into_exact_size (img_w im) (img_h im) max_w max_h) - 1 <= h'
       <= snd (fit_into_exact_size (img_w im) (img_h im) max_w max_h))%Z /\
    (w' <= max_w)%Z /\ (h' <= max_h)%Z /\
    fit_into img max_w max_h st =
      (if (w' <? 1)%Z || (h' <? 1)%Z then (None, st)
       else (Some (next_loc st),
             mkStore (<[next_loc st := mkImage w' h' (resample im w' h')]> (heap st))
                     (Datatypes.S (next_loc st)))).
Proof.
  destruct (FloatFacts.fit_scale_floor _ _ _ _ Hw Hh Hmw Hmh)
    as (sw & sh & Hsw & Hsh & w' & h' & Tw & Th & Bw & Bh).
  exists w', h'. split; [exact Bw|]. split; [exact Bh|].
  unfold fit_into_exact_size in Bw, Bh. simpl fst in Bw. simpl snd in Bh.
  split.
  { apply Z.le_trans with (max_w * img_h im / img_h im)%Z; [|rewrite Z.div_mul; lia].
    apply Z.le_trans with (Z.min (max_w * img_h im) (max_h * img_w im) / img_h im)%Z;
      [lia|apply Z.div_le_mono; lia]. }
  split.
  { apply Z.le_trans with (max_h * img_w im / img_w im)%Z; [|rewrite Z.div_mul; lia].
    apply Z.le_trans with (Z.min (max_w * img_h im) (max_h * img_w im) / img_w im)%Z;
      [lia|apply Z.div_le_mono; lia]. }
  unfold fit_into, mbind, M_bind, read. rewrite Him.
  cbv beta iota zeta. rewrite Hsw, Hsh. cbv beta iota zeta.
  rewrite Tw, Th. cbv beta iota zeta.
  unfold resize, mbind, M_bind, read. cbv beta iota zeta. rewrite Him. cbv beta iota zeta.
  destruct ((w' <? 1)%Z || (h' <? 1)%Z); reflexivity.
Qed.

(** C3: the spec's size is not the one [fit_into] computes.  A 100x158
    overlay fitted into 225x175 has [s = 175/158] and exact size
    [(110, 175)], but [158 * (175 / 158)] is [174.99999999999997] in
    binary64, so the image is resized to 110x174. *)
Lemma fit_into_rounding_counterexample :
  fit_into_exact_size 100 158 225 175 = (110%Z, 175%Z) /\
  @fit_into plain_pillow 0 225 175 fit_sample_store =
    (Some 1%nat, mkStore (<[1%nat := mkImage 110 174 []]> (heap fit_sample_store)) 2).
Proof. split; vm_compute; reflexivity. Qed.


(* ------------------------------------------------------------------ *)
(** ** Distances and the binary64 square root *)

Lemma chan_range (b : byte) : 0 <= chan b <= 255.
Proof.
  unfold chan. pose proof (Byte.to_N_bounded b). lia.
Qed.

Lemma chan_diff_sq (a b : byte) : 0 <= (chan a - chan b) ^ 2 <= 255 ^ 2.
Proof.
  pose proof (chan_range a). pose proof (chan_range b).
  set (d := chan a - chan b).
  assert (-255 <= d <= 255) by (unfold d; lia).
  rewrite !Z.pow_2_r. split; [apply Z.square_nonneg | nia].
Qed.

Lemma sq_dist_range (p : pixel) (tc : byte * byte * byte) :
  0 <= sq_dist p tc <= max_sq_dist.
Proof.
  destruct tc as [[tr tg] tb]. unfold sq_dist, max_sq_dist.
  pose proof (chan_diff_sq (pr p) tr). pose proof (chan_diff_sq (pg p) tg).
  pose proof (chan_diff_sq (pb p) tb). lia.
Qed.

Lemma all_bracketed_spec (fuel : nat) (n j : Z) :
  all_bracketed fuel n = true -> n <= j < n + Z.of_nat fuel ->
  sqrt_bracketed j = true.
Proof.
  revert n. induction fuel as [|f IH]; intros n Hall Hj; [lia|].
  simpl in Hall. apply andb_prop in Hall as [Hn Hrest].
  destruct (Z.eq_dec j n) as [->|Hne]; [exact Hn|].
  apply (IH (n + 1)); [exact Hrest | lia].
Qed.

Lemma sqrt_table : all_bracketed (Z.to_nat (max_sq_dist + 1)) 0 = true.
Proof. vm_compute. reflexivity. Qed.

Lemma sqrt_bracketed_range (n : Z) :
  0 <= n <= max_sq_dist -> sqrt_bracketed n = true.
Proof.
  intros Hn. apply (all_bracketed_spec _ 0 n sqrt_table).
  rewrite Z2Nat.id; unfold max_sq_dist in *; lia.
Qed.

(** Comparing an integer [t] with a value lying in [[k, k+1)] times a
    positive scale. *)
Lemma ltb_bracket (x k P t : Z) :
  0 < P -> k * P <= x < (k + 1) * P -> (x <? t * P) = (k <? t).
Proof.
  intros HP Hx.
  destruct (Z.ltb_spec x (t * P)), (Z.ltb_spec k t); try reflexivity; nia.
Qed.

(** For an integer [t], [k < t] with [k] the integer square root of [n]
    says that the real square root of [n] is below [t]. *)
Lemma isqrt_ltb (n t : Z) :
  0 <= n -> (Z.sqrt n <? t) = (0 <? t) && (n <? t * t).
Proof.
  intros Hn. pose proof (Z.sqrt_spec n Hn) as [Hlo Hhi].
  pose proof (Z.sqrt_nonneg n).
  set (k := Z.sqrt n) in *. unfold Z.succ in Hhi.
  destruct (Z.ltb_spec k t).
  - assert (k + 1 <= t) by lia.
    assert ((k + 1) * (k + 1) <= t * t) by (apply Z.mul_le_mono_nonneg; lia).
    destruct (Z.ltb_spec 0 t); [|lia].
    destruct (Z.ltb_spec n (t * t)); [reflexivity | lia].
  - destruct (Z.ltb_spec 0 t); [|reflexivity].
    assert (t * t <= k * k) by (apply Z.mul_le_mono_nonneg; lia).
    destruct (Z.ltb_spec n (t * t)); [lia | reflexivity].
Qed.

(** [diff < threshold] decides, for an integer threshold, whether the
    exact Euclidean distance [sqrt n] is below it. *)
Lemma float_lt_sqrt (n t : Z) :
  0 <= n <= max_sq_dist ->
  Py.float_lt_int (Py.sqrt_int n) t = (0 <? t) && (n <? t * t).
Proof.
  intros Hn. pose proof (sqrt_bracketed_range n Hn) as Hb.
  rewrite <- isqrt_ltb by lia.
  unfold sqrt_bracketed in Hb.
  destruct (Py.sqrt_int n) as [s|s| |s m e]; try discriminate.
  - apply Z.eqb_eq in Hb. subst n. reflexivity.
  - destruct s; [discriminate|]. simpl.
    destruct (Z.leb_spec 0 e).
    + apply Z.eqb_eq in Hb. rewrite Hb. reflexivity.
    + apply andb_prop in Hb as [H1 H2].
      apply Z.leb_le in H1. apply Z.ltb_lt in H2.
      apply ltb_bracket; [apply Z.pow_pos_nonneg; lia | lia].
Qed.

Lemma transparent_step_exact (tc : byte * byte * byte) (t : Z) (p : pixel) :
  transparent_step tc t p =
  if (0 <? t) && (sq_dist p tc <? t * t)
  then mkPixel (pr p) (pg p) (pb p) zero_byte else p.
Proof.
  unfold transparent_step. rewrite float_lt_sqrt by apply sq_dist_range.
  reflexivity.
Qed.

(* ------------------------------------------------------------------ *)
(** ** remove-color: [make_color_transparent] *)

(** C4: [make_color_transparent] maps every pixel on its own: a pixel whose
    Euclidean RGB distance to the target is strictly below the (integer)
    threshold keeps its RGB components and gets alpha 0; any other pixel is
    unchanged.  For an integer [t], "[sqrt d2] is strictly below [t]" reads
    [0 < t /\ d2 < t * t]. *)
Theorem make_color_transparent_pixelwise (img : image)
    (target_color : byte * byte * byte) (threshold : Z) :
  make_color_transparent img target_color threshold =
  mkImage (img_w img) (img_h img)
    (map (fun p =>
            if (0 <? threshold) && (sq_dist p target_color <? threshold * threshold)
            then mkPixel (pr p) (pg p) (pb p) zero_byte else p)
         (img_data img)).
Proof.
  unfold make_color_transparent. f_equal.
  apply map_ext. intros p. apply transparent_step_exact.
Qed.

(** C5: with threshold 0 [make_color_transparent] returns the image it was
    given; with an integer threshold above the largest RGB distance
    [sqrt (3 * 255^2)] (that is [0 < t] and [3 * 255^2 < t * t]) every pixel
    keeps its RGB components and gets alpha 0. *)
Theorem make_color_transparent_extremes (img : image)
    (target_color : byte * byte * byte) (t : Z)
    (Hpos : 0 < t) (Hbig : max_sq_dist < t * t) :
  make_color_transparent img target_color 0 = img /\
  img_data (make_color_transparent img target_color t) =
  map (fun p => mkPixel (pr p) (pg p) (pb p) zero_byte) (img_data img).
Proof.
  split.
  - destruct img as [w h d]. unfold make_color_transparent. simpl. f_equal.
    rewrite <- (map_id d) at 2. apply map_ext. intros p.
    rewrite transparent_step_exact. reflexivity.
  - unfold make_color_transparent. simpl. apply map_ext. intros p.
    rewrite transparent_step_exact.
    pose proof (sq_dist_range p target_color).
    destruct (Z.ltb_spec 0 t); [|lia].
    destruct (Z.ltb_spec (sq_dist p target_color) (t * t)); [reflexivity | lia].
Qed.

(** C9: [make_color_transparent] keeps the width, the height, the number of
    pixels and the RGB components of each pixel; a pixel's alpha is either
    kept or set to 0. *)
Theorem make_color_transparent_only_alpha (img : image)
    (target_color : byte * byte * byte) (threshold : Z) :
  let out := make_color_transparent img target_color threshold in
  img_w out = img_w img /\ img_h out = img_h img /\
  Forall2 (fun p q => pr q = pr p /\ pg q = pg p /\ pb q = pb p /\
                      (pa q = pa p \/ pa q = zero_byte))
    (img_data img) (img_data out).
Proof.
  simpl. split; [reflexivity|]. split; [reflexivity|].
  induction (img_data img) as [|p ps IH]; simpl; constructor; [|exact IH].
  unfold transparent_step.
  destruct (Py.float_lt_int _ threshold); simpl; auto.
Qed.

(* ------------------------------------------------------------------ *)
(** ** Parsing batch lines *)

Lemma parse_batch_line_split (overlays_dict : gmap string loc)
    (line filename last_field : string) (middle : list string) :
  map PyStr.strip (PyStr.split PyStr.pipe line) = filename :: middle ++ [last_field] ->
  parse_batch_line overlays_dict line =
  match overlays_dict !! last_field with
  | Some ov => Some (filename, Some ov, PyStr.join PyStr.newline middle)
  | None => Some (filename, None, PyStr.join PyStr.newline (middle ++ [last_field]))
  end.
Proof.
  intros Hparts. unfold parse_batch_line. rewrite Hparts.
  assert (Hlen : (length (filename :: middle ++ [last_field]) <? 2)%nat = false).
  { apply Nat.ltb_ge. simpl. rewrite length_app. simpl. lia. }
  rewrite Hlen.
  assert (Hlast : List.last (filename :: middle ++ [last_field]) EmptyString = last_field).
  { change (filename :: middle ++ [last_field]) with ((filename :: middle) ++ [last_field]).
    apply last_last. }
  rewrite Hlast.
  destruct (overlays_dict !! last_field) as [ov|]; [|reflexivity].
  simpl. rewrite removelast_last. reflexivity.
Qed.

(** C6: for a line with at least two fields (its stripped fields are
    [filename], the [middle] ones and [last_field]), a [last_field] naming a
    known overlay selects that overlay and the text is [middle] joined by
    newlines; otherwise there is no overlay and the text is every field after
    the first joined by newlines. *)
Theorem parse_batch_line_overlay_selector (overlays_dict : gmap string loc)
    (line filename last_field : string) (middle : list string)
    (Hparts : map PyStr.strip (PyStr.split PyStr.pipe line)
              = filename :: middle ++ [last_field]) :
  parse_batch_line overlays_dict line =
  match overlays_dict !! last_field with
  | Some ov => Some (filename, Some ov, PyStr.join PyStr.newline middle)
  | None => Some (filename, None, PyStr.join PyStr.newline (middle ++ [last_field]))
  end.
Proof.
  unfold parse_batch_line. rewrite Hparts.
  assert (Hlen : (length (filename :: middle ++ [last_field]) <? 2)%nat = false).
  { apply Nat.ltb_ge. simpl. rewrite length_app. simpl. lia. }
  rewrite Hlen.
  assert (Hlast : List.last (filename :: middle ++ [last_field]) EmptyString = last_field).
  { change (filename :: middle ++ [last_field]) with ((filename :: middle) ++ [last_field]).
    apply last_last. }
  rewrite Hlast.
  destruct (overlays_dict !! last_field) as [ov|]; [|reflexivity].
  simpl. rewrite removelast_last. reflexivity.
Qed.

(** C7: a line with fewer than two fields adds a warning for its line
    number and the loop goes on with the next line: nothing is generated and
    the dict of generated images is left as it was. *)
Theorem batch_loop_skips_malformed `{Pillow} (cfg : config) (template : loc)
    (overlays_dict : gmap string loc) (fnt : font) (idx : nat)
    (line : string) (rest : list string) (bs : batch_state)
    (Hshort : (length (PyStr.split PyStr.pipe line) < 2)%nat) :
  batch_loop cfg template overlays_dict fnt idx (line :: rest) bs =
  batch_loop cfg template overlays_dict fnt (S idx) rest
    (mkBatch (warnings bs ++ [S idx]) (generated_images bs)).
Proof.
  simpl. unfold parse_batch_line. rewrite length_map.
  apply Nat.ltb_lt in Hshort. rewrite Hshort. reflexivity.
Qed.

(** C10: a line of exactly two fields whose second field names a known
    overlay yields that overlay and the empty text, and [generate_image]
    then composites the overlay and draws no text: it runs as the same
    program without its text step. *)
Theorem two_field_overlay_line `{Pillow} (cfg : config) (template : loc)
    (overlays_dict : gmap string loc) (fnt : font) (line filename name : string)
    (ov : loc)
    (Hparts : map PyStr.strip (PyStr.split PyStr.pipe line) = [filename; name])
    (Hknown : overlays_dict !! name = Some ov) :
  parse_batch_line overlays_dict line = Some (filename, Some ov, EmptyString) /\
  forall st : store,
    generate_image cfg template (Some ov) EmptyString fnt st =
    (canvas ← copy template ;
     (overlay_resized ← fit_into ov (overlay_max_w cfg) (overlay_max_h cfg) ;
      alpha_composite canvas overlay_resized (overlay_x cfg, overlay_y cfg)) ;;
     mret canvas) st.
Proof.
  split.
  - rewrite (parse_batch_line_split overlays_dict line filename name []
               Hparts).
    rewrite Hknown. reflexivity.
  - intros st. reflexivity.
Qed.

(* ------------------------------------------------------------------ *)
(** ** Archive entries of the batch *)

Lemma string_length_append (s t : string) :
  String.length (s ++ t)%string = (String.length s + String.length t)%nat.
Proof. induction s as [|c s IH]; simpl; [reflexivity | now rewrite IH]. Qed.

Lemma string_append_inj_r (s1 s2 x : string) : (s1 ++ x)%string = (s2 ++ x)%string -> s1 = s2.
Proof.
  revert s2. induction s1 as [|c s1 IH]; intros [|c' s2] E; simpl in E.
  - reflexivity.
  - apply (f_equal String.length) in E.
    rewrite !string_length_append in E. simpl in E. lia.
  - apply (f_equal String.length) in E.
    rewrite !string_length_append in E. simpl in E. lia.
  - injection E as -> E. f_equal. exact (IH _ E).
Qed.

Lemma dict_set_fresh_keys {V} (d : list (string * V)) (k : string) (v : V) :
  ~ In k (map fst d) -> map fst (dict_set d k v) = map fst d ++ [k].
Proof.
  induction d as [|[k' v'] d IH]; intros Hk; simpl; [reflexivity|].
  simpl in Hk. destruct (String.eqb_spec k' k) as [->|Hne].
  - exfalso. apply Hk. now left.
  - simpl. rewrite IH; [reflexivity|]. intros Hin. apply Hk. now right.
Qed.

Lemma parse_valid_line (overlays_dict : gmap string loc) (line name : string)
    (rest : list string) :
  map PyStr.strip (PyStr.split PyStr.pipe line) = name :: rest -> rest <> [] ->
  exists ov txt, parse_batch_line overlays_dict line = Some (name, ov, txt).
Proof.
  intros Hparts Hrest.
  destruct (exists_last Hrest) as [middle [last_field ->]].
  rewrite (parse_batch_line_split overlays_dict line name last_field
             middle Hparts).
  destruct (overlays_dict !! last_field); eauto.
Qed.

Lemma batch_loop_fresh_entries `{Pillow} (cfg : config) (template : loc)
    (overlays_dict : gmap string loc) (fnt : font) (lines names : list string) :
  Forall2 (fun line name => exists rest,
             map PyStr.strip (PyStr.split PyStr.pipe line) = name :: rest /\
             rest <> []) lines names ->
  forall idx bs st bs' st',
  NoDup (map (fun n => (n ++ PyStr.png_ext)%string) names) ->
  Forall (fun n => ~ In ((n ++ PyStr.png_ext)%string) (map fst (generated_images bs))) names ->
  batch_loop cfg template overlays_dict fnt idx lines bs st = (Some bs', st') ->
  map fst (generated_images bs') =
  map fst (generated_images bs) ++ map (fun n => (n ++ PyStr.png_ext)%string) names.
Proof.
  induction 1 as [|line name lines names [rest [Hparts Hrest]] Hall IH];
    intros idx bs st bs' st' Hnd Hfresh Hrun.
  - simpl in Hrun. injection Hrun as <- _. simpl. now rewrite app_nil_r.
  - simpl in Hrun.
    destruct (parse_valid_line overlays_dict line name rest Hparts Hrest)
      as [ov [txt Hparse]].
    rewrite Hparse in Hrun.
    unfold mbind, M_bind in Hrun.
    destruct (generate_image cfg template ov txt fnt st) as [[c|] st1];
      [|discriminate].
    unfold read in Hrun.
    destruct (heap st1 !! c) as [png|]; [|discriminate].
    simpl in Hnd. apply NoDup_cons in Hnd as [Hnotin Hnd].
    apply Forall_cons in Hfresh as [Hfresh1 Hfresh].
    assert (Hfresh' : Forall (fun n => ~ In (n ++ PyStr.png_ext)%string
               (map fst (dict_set (generated_images bs) (name ++ PyStr.png_ext)%string png)))
               names).
    { apply Forall_forall. intros n Hn.
      rewrite dict_set_fresh_keys by exact Hfresh1.
      rewrite in_app_iff. intros [Hin|Hin].
      - exact (proj1 (Forall_forall _ _) Hfresh n Hn Hin).
      - destruct Hin as [Heq|[]]. apply Hnotin.
        apply list_elem_of_In, in_map_iff. exists n.
        split; [symmetry; exact Heq | apply list_elem_of_In; exact Hn]. }
    rewrite (IH (S idx) (mkBatch (warnings bs)
              (dict_set (generated_images bs) (name ++ PyStr.png_ext)%string png))
              st1 bs' st' Hnd Hfresh' Hrun). simpl.
    rewrite dict_set_fresh_keys by exact Hfresh1.
    now rewrite <- app_assoc.
Qed.

(* ------------------------------------------------------------------ *)
(** ** Python dicts *)

Lemma dict_get_set_eq {V} (d : list (string * V)) (k : string) (v : V) :
  dict_get (dict_set d k v) k = Some v.
Proof.
  induction d as [|[k' v'] d IH]; simpl.
  - rewrite String.eqb_refl. reflexivity.
  - destruct (String.eqb_spec k' k) as [->|Hne]; simpl.
    + rewrite String.eqb_refl. reflexivity.
    + destruct (String.eqb_spec k' k); [contradiction | exact IH].
Qed.

Lemma dict_get_set_ne {V} (d : list (string * V)) (k k' : string) (v : V) :
  k <> k' -> dict_get (dict_set d k v) k' = dict_get d k'.
Proof.
  intros Hne. induction d as [|[k'' v''] d IH]; simpl.
  - destruct (String.eqb_spec k k'); [contradiction | reflexivity].
  - destruct (String.eqb_spec k'' k) as [->|Hne']; simpl.
    + destruct (String.eqb_spec k k'); [contradiction | reflexivity].
    + destruct (String.eqb_spec k'' k'); [reflexivity | exact IH].
Qed.

Lemma dict_get_app {V} (l1 l2 : list (string * V)) (k : string) :
  dict_get (l1 ++ l2) k =
  match dict_get l1 k with Some v => Some v | None => dict_get l2 k end.
Proof.
  induction l1 as [|[k' v'] l1 IH]; simpl; [reflexivity|].
  destruct (String.eqb k' k); [reflexivity | exact IH].
Qed.

(** [d.update(e)] then [d[k]]: the last value [e] gives [k], else [d]'s. *)
Lemma dict_update_get {V} (e d : list (string * V)) (k : string) :
  dict_get (dict_update d e) k =
  match dict_get (rev e) k with Some v => Some v | None => dict_get d k end.
Proof.
  revert d. induction e as [|[k' v'] e IH]; intros d; [reflexivity|].
  unfold dict_update in *. simpl. rewrite IH, dict_get_app. simpl.
  destruct (dict_get (rev e) k); [reflexivity|].
  destruct (String.eqb_spec k' k) as [->|Hne].
  - apply dict_get_set_eq.
  - apply dict_get_set_ne. exact Hne.
Qed.

Lemma dict_set_keys {V} (d : list (string * V)) (k x : string) (v : V) :
  In x (map fst (dict_set d k v)) <-> x = k \/ In x (map fst d).
Proof.
  induction d as [|[k' v'] d IH]; simpl.
  - naive_solver.
  - destruct (String.eqb_spec k' k) as [->|Hne]; simpl.
    + naive_solver.
    + rewrite IH. naive_solver.
Qed.

Lemma dict_set_keys_in {V} (d : list (string * V)) (k : string) (v : V) :
  In k (map fst d) -> map fst (dict_set d k v) = map fst d.
Proof.
  induction d as [|[k' v'] d IH]; simpl; [intros []|].
  intros Hk. destruct (String.eqb_spec k' k) as [->|Hne]; simpl; [reflexivity|].
  rewrite IH; [reflexivity|]. destruct Hk as [Hk|Hk]; [contradiction | exact Hk].
Qed.

Lemma dict_set_nodup {V} (d : list (string * V)) (k : string) (v : V) :
  NoDup (map fst d) -> NoDup (map fst (dict_set d k v)).
Proof.
  intros Hnd. destruct (in_dec string_dec k (map fst d)) as [Hin|Hout].
  - rewrite dict_set_keys_in by exact Hin. exact Hnd.
  - rewrite dict_set_fresh_keys by exact Hout.
    apply NoDup_app. split; [exact Hnd|]. split; [|apply NoDup_singleton].
    intros x Hx Hx'. apply list_elem_of_singleton in Hx'. subst x.
    apply Hout, list_elem_of_In, Hx.
Qed.

Lemma dict_set_elems {V} (d : list (string * V)) (k : string) (v : V) e :
  In e (dict_set d k v) -> e = (k, v) \/ In e d.
Proof.
  induction d as [|[k' v'] d IH]; simpl; [naive_solver|].
  destruct (String.eqb k' k); simpl; [naive_solver|].
  intros [<-|He]; [right; left; reflexivity|].
  destruct (IH He); [left | right; right]; assumption.
Qed.

Lemma dict_update_keys {V} (e d : list (string * V)) :
  NoDup (map fst d) ->
  NoDup (map fst (dict_update d e)) /\
  forall x, In x (map fst (dict_update d e)) <-> In x (map fst d) \/ In x (map fst e).
Proof.
  revert d. induction e as [|[k v] e IH]; intros d Hnd.
  - split; [exact Hnd|]. intros x. simpl. tauto.
  - unfold dict_update in *. simpl.
    destruct (IH (dict_set d k v) (dict_set_nodup d k v Hnd)) as [H1 H2].
    split; [exact H1|]. intros x. rewrite H2, dict_set_keys. naive_solver.
Qed.

Lemma dict_get_some_in {V} (d : list (string * V)) (k : string) (v : V) :
  dict_get d k = Some v -> In (k, v) d.
Proof.
  induction d as [|[k' v'] d IH]; simpl; [discriminate|].
  destruct (String.eqb_spec k' k) as [->|_].
  - intros E. injection E as ->. left. reflexivity.
  - intros E. right. exact (IH E).
Qed.

Lemma dict_get_none {V} (d : list (string * V)) (k : string) :
  dict_get d k = None <-> ~ In k (map fst d).
Proof.
  induction d as [|[k' v'] d IH]; simpl; [tauto|].
  destruct (String.eqb_spec k' k) as [->|Hne]; [split; [discriminate | tauto]|].
  rewrite IH. naive_solver.
Qed.

Lemma in_dict_get {V} (d : list (string * V)) (k : string) (v : V) :
  NoDup (map fst d) -> In (k, v) d -> dict_get d k = Some v.
Proof.
  induction d as [|[k' v'] d IH]; simpl; [intros _ []|].
  intros Hnd Hin. apply NoDup_cons in Hnd as [Hk' Hnd].
  destruct (String.eqb_spec k' k) as [->|Hne].
  - destruct Hin as [E|Hin]; [injection E as ->; reflexivity|].
    exfalso. apply Hk', list_elem_of_In, in_map_iff. exists (k, v). auto.
  - destruct Hin as [E|Hin]; [injection E as -> ->; contradiction|].
    exact (IH Hnd Hin).
Qed.

Lemma dict_get_rev {V} (d : list (string * V)) (k : string) :
  NoDup (map fst d) -> dict_get (rev d) k = dict_get d k.
Proof.
  intros Hnd.
  assert (Hnd' : NoDup (map fst (rev d))).
  { rewrite map_rev. apply NoDup_ListNoDup, List.NoDup_rev, NoDup_ListNoDup.
    exact Hnd. }
  destruct (dict_get d k) as [v|] eqn:E.
  - apply dict_get_some_in in E. apply in_dict_get; [exact Hnd'|].
    rewrite <- in_rev. exact E.
  - apply dict_get_none in E. apply dict_get_none. rewrite map_rev, <- in_rev.
    exact E.
Qed.

Lemma batch_loop_entries `{Pillow} (cfg : config) (template : loc)
    (overlays_dict : gmap string loc) (fnt : font) (lines : list string) :
  forall idx bs st bs' st',
  batch_loop cfg template overlays_dict fnt idx lines bs st = (Some bs', st') ->
  NoDup (map fst (generated_images bs)) ->
  NoDup (map fst (generated_images bs')) /\
  forall entry, In entry (map fst (generated_images bs')) <->
    In entry (map fst (generated_images bs)) \/
    exists line filename ov txt, In line lines /\
      parse_batch_line overlays_dict line = Some (filename, ov, txt) /\
      entry = (filename ++ PyStr.png_ext)%string.
Proof.
  induction lines as [|line lines IH]; intros idx bs st bs' st' Hrun Hnd.
  - simpl in Hrun. injection Hrun as <- _. split; [exact Hnd|].
    intros entry. split; [tauto|]. intros [Hin|(l & _ & _ & _ & [] & _)]. exact Hin.
  - simpl in Hrun.
    destruct (parse_batch_line overlays_dict line) as [[[f ov] txt]|] eqn:Hp.
    + unfold mbind, M_bind in Hrun.
      destruct (generate_image cfg template ov txt fnt st) as [[c|] st1]; [|discriminate].
      unfold read in Hrun.
      destruct (heap st1 !! c) as [png|]; [|discriminate].
      destruct (IH _ _ _ _ _ Hrun) as [H1 H2]; [simpl; apply dict_set_nodup, Hnd|].
      split; [exact H1|]. intros entry. rewrite H2. simpl. rewrite dict_set_keys. split.
      * intros [[->|Hin]|(l & f' & ov' & t' & Hl & Hp' & ->)].
        -- right. exists line, f, ov, txt. split; [left; reflexivity|]. auto.
        -- left. exact Hin.
        -- right. exists l, f', ov', t'. split; [right; exact Hl|]. auto.
      * intros [Hin|(l & f' & ov' & t' & [<-|Hl] & Hp' & ->)].
        -- left. right. exact Hin.
        -- left. left. rewrite Hp in Hp'. injection Hp' as -> _ _. reflexivity.
        -- right. exists l, f', ov', t'. auto.
    + destruct (IH _ _ _ _ _ Hrun Hnd) as [H1 H2]. split; [exact H1|].
      intros entry. rewrite H2. simpl. split.
      * intros [Hin|(l & f' & ov' & t' & Hl & Hp' & ->)]; [left; exact Hin|].
        right. exists l, f', ov', t'. auto.
      * intros [Hin|(l & f' & ov' & t' & [<-|Hl] & Hp' & ->)]; [left; exact Hin| |].
        -- congruence.
        -- right. exists l, f', ov', t'. auto.
Qed.

Lemma forall2_in_l {A B} (P : A -> B -> Prop) (l1 : list A) (l2 : list B) (x : A) :
  Forall2 P l1 l2 -> In x l1 -> exists y, In y l2 /\ P x y.
Proof.
  induction 1 as [|a b l1 l2 Hab _ IH]; simpl; [tauto|].
  intros [<-|Hx]; [exists b; auto|].
  destruct (IH Hx) as (y & Hy & Pxy). exists y. auto.
Qed.

Lemma forall2_in_r {A B} (P : A -> B -> Prop) (l1 : list A) (l2 : list B) (y : B) :
  Forall2 P l1 l2 -> In y l2 -> exists x, In x l1 /\ P x y.
Proof.
  induction 1 as [|a b l1 l2 Hab _ IH]; simpl; [tauto|].
  intros [<-|Hy]; [exists a; auto|].
  destruct (IH Hy) as (x & Hx & Pxy). exists x. auto.
Qed.

(** C1 (as the code behaves): when every line is valid and generation does
    not raise, the archive entries are the names [<first field>.png] of the
    lines (first field stripped), each exactly once, so lines sharing a first
    field give a single entry.  When the first fields are pairwise distinct,
    there is one entry per line, in line order. *)
Theorem batch_entries_distinct_names `{Pillow} (cfg : config) (template : loc)
    (overlays_dict : gmap string loc) (fnt : font) (lines names : list string)
    (st : store) (bs : batch_state)
    (Hvalid : Forall2 (fun line name => exists rest,
                 map PyStr.strip (PyStr.split PyStr.pipe line) = name :: rest /\
                 rest <> []) lines names)
    (Hrun : fst (batch_loop cfg template overlays_dict fnt 0 lines
                   (mkBatch [] []) st) = Some bs) :
  NoDup (zip_entries bs) /\
  (forall entry, In entry (zip_entries bs) <->
     exists name, In name names /\ entry = (name ++ PyStr.png_ext)%string) /\
  (NoDup names ->
   zip_entries bs = map (fun n => (n ++ PyStr.png_ext)%string) names /\
   length (zip_entries bs) = length lines).
Proof.
  destruct (batch_loop cfg template overlays_dict fnt 0 lines (mkBatch [] []) st)
    as [r st'] eqn:E.
  simpl in Hrun. subst r.
  destruct (batch_loop_entries cfg template overlays_dict fnt lines 0 (mkBatch [] [])
              st bs st' E (NoDup_nil_2)) as [Hnd_all Hall].
  split; [exact Hnd_all|]. split.
  - intros entry. unfold zip_entries. rewrite Hall. simpl. split.
    + intros [[]|(line & f & ov & txt & Hl & Hp & ->)].
      destruct (forall2_in_l _ _ _ _ Hvalid Hl) as (name & Hn & rest & Hparts & Hrest).
      destruct (parse_valid_line overlays_dict line name rest Hparts Hrest)
        as (ov' & txt' & Hp').
      rewrite Hp in Hp'. injection Hp' as -> _ _. exists name. auto.
    + intros (name & Hn & ->).
      destruct (forall2_in_r _ _ _ _ Hvalid Hn) as (line & Hl & rest & Hparts & Hrest).
      destruct (parse_valid_line overlays_dict line name rest Hparts Hrest)
        as (ov & txt & Hp).
      right. exists line, name, ov, txt. auto.
  - intros Hdistinct.
    assert (Hnd : NoDup (map (fun n => (n ++ PyStr.png_ext)%string) names)).
    { clear Hvalid E Hall Hnd_all. induction Hdistinct as [|n ns Hn Hns IH]; simpl;
        constructor; [|exact IH].
      intros Hin. apply list_elem_of_In, in_map_iff in Hin as [m [Em Hm]].
      apply string_append_inj_r in Em. subst m.
      apply Hn. apply list_elem_of_In. exact Hm. }
    assert (Hent : zip_entries bs = map (fun n => (n ++ PyStr.png_ext)%string) names).
    { unfold zip_entries.
      rewrite (batch_loop_fresh_entries cfg template overlays_dict fnt lines names
                 Hvalid 0 (mkBatch [] []) st bs st' Hnd); [reflexivity| |exact E].
      apply Forall_forall. intros n _ []. }
    split; [exact Hent|].
    rewrite Hent, length_map. symmetry. exact (Forall2_length _ _ _ Hvalid).
Qed.

(** C1 as stated fails: two valid lines with the same first field give a
    single archive entry, since [generated_images] is a dict keyed by the
    entry name. *)
Lemma batch_duplicate_name_counterexample :
  let batch_input := PyStr.join PyStr.newline ["a | x"; "a | y"] in
  length (batch_lines batch_input) = 2%nat /\
  Forall (fun l => (2 <= length (PyStr.split PyStr.pipe l))%nat)
    (batch_lines batch_input) /\
  option_map zip_entries
    (mjoin (fst (batch_generate default_config 0 sample_overlays sample_font
                   batch_input sample_store))) = Some ["a.png"%string].
Proof.
  simpl. split; [vm_compute; reflexivity|]. split.
  - vm_compute. repeat constructor.
  - vm_compute. reflexivity.
Qed.

(* ------------------------------------------------------------------ *)
(** ** compose: [generate_image] works on a copy *)

Lemma bind_some {A B} (m : M A) (f : A -> M B) (st st' : store) (a : A) :
  m st = (Some a, st') -> (m ≫= f) st = f a st'.
Proof. intros E. unfold mbind, M_bind. now rewrite E. Qed.

Lemma keeps_bind (P : store -> Prop) {A B} (m : M A) (f : A -> M B) :
  keeps P m -> (forall a, keeps P (f a)) -> keeps P (m ≫= f).
Proof.
  intros Hm Hf st HP. specialize (Hm st HP). unfold mbind, M_bind.
  destruct (m st) as [[a|] st'] eqn:E; simpl in *; [exact (Hf a st' Hm) | exact Hm].
Qed.

Lemma keeps_ret (P : store -> Prop) {A} (a : A) : keeps P (mret a).
Proof. intros st HP. exact HP. Qed.

Lemma keeps_raise (P : store -> Prop) {A} : keeps P (@raise A).
Proof. intros st HP. exact HP. Qed.

Lemma keeps_read (P : store -> Prop) (l : loc) : keeps P (read l).
Proof. intros st HP. unfold read. now destruct (heap st !! l). Qed.

Lemma yields_bind {A B} (b : B) (m : M A) (f : A -> M B) :
  (forall a, yields_only b (f a)) -> yields_only b (m ≫= f).
Proof.
  intros Hf st r. unfold mbind, M_bind.
  destruct (m st) as [[a|] st'] eqn:E; [apply Hf | discriminate].
Qed.

Lemma yields_ret {A} (a : A) : yields_only a (mret a).
Proof. intros st b E. injection E as <-. reflexivity. Qed.

Section CanvasInv.
Context `{Pillow}.
Variables (t : loc) (timg : image) (c : loc).

Lemma keeps_alloc (im : image) : keeps (canvas_inv t timg c) (alloc im).
  Proof.
    intros st (Ht & (ci & Hc & Hw & Hh) & Hne & Htn & Hcn). simpl.
    unfold canvas_inv. simpl.
    rewrite !lookup_insert_ne by lia.
    split; [exact Ht|]. split; [exists ci; auto|]. lia.
  Qed.

Lemma keeps_alpha_composite (ov : loc) (dest : Z * Z) :
    keeps (canvas_inv t timg c) (alpha_composite c ov dest).
  Proof.
    destruct dest as [x y]. unfold alpha_composite.
    intros st HI. pose proof HI as (Ht & (ci & Hc & Hw & Hh) & Hne & Htn & Hcn).
    unfold mbind, M_bind, read. rewrite Hc.
    destruct (heap st !! ov) as [oi|]; [|exact HI].
    unfold write, canvas_inv. simpl.
    rewrite lookup_insert_ne by congruence.
    split; [exact Ht|]. split; [|lia].
    eexists. rewrite lookup_insert_eq. split; [reflexivity|]. simpl. auto.
  Qed.

Lemma keeps_multiline_text (xy : Z * Z) (txt : string) (fnt : font)
      (fill : byte * byte * byte) (spacing : Z) (align : string) :
    keeps (canvas_inv t timg c) (multiline_text c xy txt fnt fill spacing align).
  Proof.
    intros st HI. pose proof HI as (Ht & (ci & Hc & Hw & Hh) & Hne & Htn & Hcn).
    unfold multiline_text, mbind, M_bind, read. rewrite Hc.
    unfold write, canvas_inv. simpl.
    rewrite lookup_insert_ne by congruence.
    split; [exact Ht|]. split; [|lia].
    eexists. rewrite lookup_insert_eq. split; [reflexivity|]. simpl. auto.
  Qed.

Lemma keeps_fit_into (img : loc) (max_w max_h : Z) :
    keeps (canvas_inv t timg c) (fit_into img max_w max_h).
  Proof.
    unfold fit_into. apply keeps_bind; [apply keeps_read|]. intros im.
    repeat case_match; try apply keeps_raise.
    unfold resize. apply keeps_bind; [apply keeps_read|]. intros im'.
    case_match; [apply keeps_raise | apply keeps_alloc].
  Qed.

End CanvasInv.


(** C8: [generate_image] draws on a copy of the template.  From a
    well-formed store holding the template image, the template still holds
    the same image after the call, whether or not the call raises; when it
    returns, it returns a new image, distinct from the template, of the
    template's width and height. *)
Theorem generate_image_copies_template `{Pillow} (cfg : config)
    (template : loc) (timg : image) (overlay : option loc)
    (custom_text : string) (fnt : font) (st : store)
    (Hwf : store_wf st) (Htpl : heap st !! template = Some timg) :
  let res := generate_image cfg template overlay custom_text fnt st in
  heap (snd res) !! template = Some timg /\
  forall canvas, fst res = Some canvas ->
    canvas <> template /\
    exists im, heap (snd res) !! canvas = Some im /\
               img_w im = img_w timg /\ img_h im = img_h timg.
Proof.
  intros res.
  pose proof (map_Forall_lookup_1 _ _ _ _ Hwf Htpl) as Htn. simpl in Htn.
  set (n := next_loc st) in *.
  set (st1 := mkStore (<[n := timg]> (heap st)) (S n)).
  assert (Hcopy : copy template st = (Some n, st1)).
  { unfold copy, mbind, M_bind, read. rewrite Htpl. reflexivity. }
  assert (Hinv1 : canvas_inv template timg n st1).
  { unfold canvas_inv, st1. simpl.
    rewrite lookup_insert_ne by lia. split; [exact Htpl|].
    split; [|lia]. exists timg. rewrite lookup_insert_eq. auto. }
  assert (Hres : res =
    ((match overlay with
      | Some ov =>
          overlay_resized ← fit_into ov (overlay_max_w cfg) (overlay_max_h cfg) ;
          alpha_composite n overlay_resized (overlay_x cfg, overlay_y cfg)
      | None => mret tt
      end ;;
      (if String.eqb custom_text EmptyString then mret tt
       else multiline_text n (text_x cfg, text_y cfg) custom_text fnt
              (text_color_rgb cfg) (text_spacing cfg) (text_align cfg)) ;;
      mret n) st1)).
  { unfold res, generate_image. rewrite (bind_some _ _ _ _ _ Hcopy). reflexivity. }
  assert (Hkeep : canvas_inv template timg n (snd res)).
  { rewrite Hres. revert Hinv1. generalize st1. apply keeps_bind.
    - destruct overlay as [ov|]; [|apply keeps_ret].
      apply keeps_bind; [apply keeps_fit_into|]. intros o.
      apply keeps_alpha_composite.
    - intros []. apply keeps_bind.
      + case_match; [apply keeps_ret | apply keeps_multiline_text].
      + intros []. apply keeps_ret. }
  destruct Hkeep as (Ht & Hc & Hne & _ & _).
  split; [exact Ht|]. intros canvas Hcanvas.
  assert (canvas = n) as ->.
  { rewrite Hres in Hcanvas. revert Hcanvas. apply yields_bind. intros [].
    apply yields_bind. intros []. apply yields_ret. }
  split; [congruence | exact Hc].
Qed.

(* ------------------------------------------------------------------ *)
(** ** Stepping through store computations *)


Lemma keeps_and (P Q : store -> Prop) {A} (m : M A) :
  keeps P m -> keeps Q m -> keeps (fun s => P s /\ Q s) m.
Proof. intros HP HQ st [H1 H2]. split; [apply HP | apply HQ]; assumption. Qed.

Lemma keeps_wf_alloc (im : image) : keeps store_wf (alloc im).
Proof.
  intros st Hwf. unfold store_wf in *. simpl.
  apply map_Forall_insert_2; [lia|].
  intros l x Hl. pose proof (Hwf l x Hl). simpl in *. lia.
Qed.

Lemma keeps_wf_write_read (l : loc) (im : image) :
  keeps (fun st => store_wf st /\ exists im0, heap st !! l = Some im0) (write l im).
Proof.
  intros st [Hwf [im0 Hl]]. pose proof (map_Forall_lookup_1 _ _ _ _ Hwf Hl) as Hlt.
  simpl in Hlt. unfold store_wf in *. simpl. split.
  - apply map_Forall_insert_2; [exact Hlt | exact Hwf].
  - exists im. apply lookup_insert_eq.
Qed.

Lemma keeps_wf_copy (l : loc) : keeps store_wf (copy l).
Proof.
  unfold copy. apply keeps_bind; [apply keeps_read|]. intros im. apply keeps_wf_alloc.
Qed.

Lemma keeps_wf_fit_into `{Pillow} (img : loc) (max_w max_h : Z) :
  keeps store_wf (fit_into img max_w max_h).
Proof.
  unfold fit_into. apply keeps_bind; [apply keeps_read|]. intros im.
  repeat case_match; try apply keeps_raise.
  unfold resize. apply keeps_bind; [apply keeps_read|]. intros im'.
  case_match; [apply keeps_raise | apply keeps_wf_alloc].
Qed.


Lemma keeps_wf_alpha_composite `{Pillow} (c ov : loc) (dest : Z * Z) :
  keeps store_wf (alpha_composite c ov dest).
Proof.
  destruct dest as [x y]. unfold alpha_composite.
  intros st Hwf. unfold mbind, M_bind, read.
  destruct (heap st !! c) as [ci|] eqn:Hc; [|exact Hwf].
  destruct (heap st !! ov) as [oi|]; [|exact Hwf].
  apply (keeps_wf_write_read c). split; [exact Hwf | exists ci; exact Hc].
Qed.

Lemma keeps_wf_multiline_text `{Pillow} (c : loc) (xy : Z * Z) (txt : string)
    (fnt : font) (fill : byte * byte * byte) (spacing : Z) (align : string) :
  keeps store_wf (multiline_text c xy txt fnt fill spacing align).
Proof.
  intros st Hwf. unfold multiline_text, mbind, M_bind, read.
  destruct (heap st !! c) as [ci|] eqn:Hc; [|exact Hwf].
  apply (keeps_wf_write_read c). split; [exact Hwf | exists ci; exact Hc].
Qed.

(** [generate_image] keeps the store well formed and the template's image,
    and returns an image of the template's size. *)
Lemma generate_image_on_copy `{Pillow} (cfg : config) (template : loc)
    (timg : image) (overlay : option loc) (custom_text : string) (fnt : font)
    (st : store) :
  store_wf st -> heap st !! template = Some timg ->
  let res := generate_image cfg template overlay custom_text fnt st in
  store_wf (snd res) /\ heap (snd res) !! template = Some timg /\
  forall canvas, fst res = Some canvas ->
    exists im, heap (snd res) !! canvas = Some im /\
               img_w im = img_w timg /\ img_h im = img_h timg.
Proof.
  intros Hwf Htpl res.
  pose proof (map_Forall_lookup_1 _ _ _ _ Hwf Htpl) as Htn. simpl in Htn.
  set (n := next_loc st) in *.
  set (st1 := mkStore (<[n := timg]> (heap st)) (S n)).
  assert (Hcopy : copy template st = (Some n, st1)).
  { unfold copy, mbind, M_bind, read. rewrite Htpl. reflexivity. }
  assert (Hwf1 : store_wf st1).
  { apply (keeps_wf_copy template st) in Hwf. rewrite Hcopy in Hwf. exact Hwf. }
  assert (Hinv1 : canvas_inv template timg n st1).
  { unfold canvas_inv, st1. simpl.
    rewrite lookup_insert_ne by lia. split; [exact Htpl|].
    split; [|lia]. exists timg. rewrite lookup_insert_eq. auto. }
  assert (Hres : res =
    ((match overlay with
      | Some ov =>
          overlay_resized ← fit_into ov (overlay_max_w cfg) (overlay_max_h cfg) ;
          alpha_composite n overlay_resized (overlay_x cfg, overlay_y cfg)
      | None => mret tt
      end ;;
      (if String.eqb custom_text EmptyString then mret tt
       else multiline_text n (text_x cfg, text_y cfg) custom_text fnt
              (text_color_rgb cfg) (text_spacing cfg) (text_align cfg)) ;;
      mret n) st1)).
  { unfold res, generate_image. rewrite (bind_some _ _ _ _ _ Hcopy). reflexivity. }
  set (P := fun s => store_wf s /\ canvas_inv template timg n s).
  assert (HP1 : P st1) by (split; assumption).
  assert (Hkeep : P (snd res)).
  { rewrite Hres. revert HP1. generalize st1. apply keeps_bind.
    - destruct overlay as [ov|]; [|apply keeps_ret].
      apply keeps_bind.
      + apply keeps_and; [apply keeps_wf_fit_into | apply keeps_fit_into].
      + intros o. apply keeps_and;
          [apply keeps_wf_alpha_composite | apply keeps_alpha_composite].
    - intros []. apply keeps_bind.
      + case_match; [apply keeps_ret|].
        apply keeps_and; [apply keeps_wf_multiline_text | apply keeps_multiline_text].
      + intros []. apply keeps_ret. }
  destruct Hkeep as (Hwf' & Ht & Hc & _ & _ & _).
  split; [exact Hwf'|]. split; [exact Ht|]. intros canvas Hcanvas.
  assert (canvas = n) as ->.
  { rewrite Hres in Hcanvas. revert Hcanvas. apply yields_bind. intros [].
    apply yields_bind. intros []. apply yields_ret. }
  exact Hc.
Qed.

(* ------------------------------------------------------------------ *)
(** ** Strings *)

Lemma string_app_inj_l (p s1 s2 : string) :
  (p ++ s1)%string = (p ++ s2)%string -> s1 = s2.
Proof.
  induction p as [|c p IH]; simpl; [tauto|]. intros E. injection E as E.
  exact (IH E).
Qed.

Lemma string_app_assoc (a b c : string) :
  String.append a (String.append b c) = String.append (String.append a b) c.
Proof. induction a as [|x a IH]; [reflexivity|]. exact (f_equal (String x) IH). Qed.

Lemma lstrip_chars (s : string) (x : ascii) :
  In x (list_ascii_of_string (PyStr.lstrip s)) -> In x (list_ascii_of_string s).
Proof.
  induction s as [|c s IH]; simpl; [tauto|].
  destruct (PyStr.is_space c); simpl; [intros H; right; exact (IH H) | tauto].
Qed.

Lemma rstrip_chars (s : string) (x : ascii) :
  In x (list_ascii_of_string (PyStr.rstrip s)) -> In x (list_ascii_of_string s).
Proof.
  induction s as [|c s IH]; [simpl; tauto|].
  intros H. simpl in H.
  destruct (PyStr.rstrip s) as [|c' r'] eqn:E.
  - simpl. destruct (PyStr.is_space c); simpl in H; tauto.
  - simpl in H |- *. destruct H as [H|H]; [left; exact H|].
    right. apply IH. exact H.
Qed.

Lemma strip_chars (s : string) (x : ascii) :
  In x (list_ascii_of_string (PyStr.strip s)) -> In x (list_ascii_of_string s).
Proof. intros H. apply lstrip_chars, rstrip_chars, H. Qed.

Lemma split_chars (sep : ascii) (s p : string) (x : ascii) :
  In p (PyStr.split sep s) -> In x (list_ascii_of_string p) ->
  In x (list_ascii_of_string s) /\ x <> sep.
Proof.
  revert p. induction s as [|c s IH]; intros p Hp Hx; simpl in Hp.
  - destruct Hp as [<-|[]]. simpl in Hx. contradiction.
  - destruct (Ascii.eqb_spec c sep) as [->|Hne].
    + destruct Hp as [<-|Hp]; [simpl in Hx; contradiction|].
      destruct (IH p Hp Hx) as [H1 H2]. split; [right; exact H1 | exact H2].
    + destruct (PyStr.split sep s) as [|q qs] eqn:E.
      * destruct Hp as [<-|[]]. simpl in Hx. destruct Hx as [<-|[]].
        split; [left; reflexivity | exact Hne].
      * destruct Hp as [<-|Hp].
        -- simpl in Hx. destruct Hx as [<-|Hx]; [split; [left; reflexivity | exact Hne]|].
           destruct (IH q (or_introl eq_refl) Hx) as [H1 H2].
           split; [right; exact H1 | exact H2].
        -- destruct (IH p (or_intror Hp) Hx) as [H1 H2].
           split; [right; exact H1 | exact H2].
Qed.

Lemma split_single (sep : ascii) (x : string) :
  ~ In sep (list_ascii_of_string x) -> PyStr.split sep x = [x].
Proof.
  induction x as [|c x IH]; intros Hx; [reflexivity|]. simpl.
  destruct (Ascii.eqb_spec c sep) as [->|Hne]; [exfalso; apply Hx; left; reflexivity|].
  rewrite IH; [reflexivity|]. intros H. apply Hx. right. exact H.
Qed.

Lemma split_app_sep (sep : ascii) (x t : string) :
  ~ In sep (list_ascii_of_string x) ->
  PyStr.split sep (x ++ String sep t) = x :: PyStr.split sep t.
Proof.
  induction x as [|c x IH]; intros Hx; simpl.
  - rewrite Ascii.eqb_refl. reflexivity.
  - destruct (Ascii.eqb_spec c sep) as [->|Hne]; [exfalso; apply Hx; left; reflexivity|].
    rewrite IH; [reflexivity|]. intros H. apply Hx. right. exact H.
Qed.

(** Joining with [sep] and splitting at [sep] give back the fields when
    none contains [sep]. *)
Lemma split_join (sep : ascii) (l : list string) :
  l <> [] -> Forall (fun p => ~ In sep (list_ascii_of_string p)) l ->
  PyStr.split sep (PyStr.join (String sep EmptyString) l) = l.
Proof.
  induction l as [|x l IH]; intros Hne Hl; [contradiction|].
  apply Forall_cons in Hl as [Hx Hl].
  destruct l as [|y l].
  - simpl. apply split_single. exact Hx.
  - change (PyStr.join (String sep EmptyString) (x :: y :: l)) with
      (x ++ String sep (PyStr.join (String sep EmptyString) (y :: l)))%string.
    rewrite split_app_sep by exact Hx. rewrite IH; [reflexivity | discriminate | exact Hl].
Qed.

Lemma removelast_in {A} (l : list A) (x : A) : In x (removelast l) -> In x l.
Proof.
  induction l as [|a l IH]; simpl; [tauto|].
  destruct l as [|b l]; [simpl; tauto|].
  intros [H|H]; [left; exact H | right; exact (IH H)].
Qed.

Lemma batch_lines_in (batch_input line : string) :
  In line (batch_lines batch_input) ->
  exists q, In q (PyStr.split "010"%char batch_input) /\ line = PyStr.strip q.
Proof.
  unfold batch_lines. intros H. apply list_elem_of_In, list_elem_of_filter in H as [_ H].
  apply list_elem_of_In, in_map_iff in H as [q [Hq Hin]].
  exists q. split; [exact Hin | symmetry; exact Hq].
Qed.

Lemma batch_lines_nil (batch_input : string) :
  batch_lines batch_input = [] <->
  Forall (fun l => PyStr.strip l = EmptyString) (PyStr.split "010"%char batch_input).
Proof.
  unfold batch_lines.
  induction (PyStr.split "010"%char batch_input) as [|x xs IH]; simpl.
  - split; [intros _; constructor | reflexivity].
  - rewrite filter_cons, Forall_cons.
    destruct (String.eqb_spec (PyStr.strip x) EmptyString) as [E|E]; simpl.
    + rewrite IH. tauto.
    + split; [discriminate | intros [H _]; contradiction].
Qed.

(* ------------------------------------------------------------------ *)
(** ** Parsing colours *)

Lemma digit_char_facts (c : ascii) :
  PyInt.digit_value c < 16 ->
  PyStr.is_space c = false /\ Ascii.eqb c "-" = false /\ Ascii.eqb c "+" = false /\
  Ascii.eqb c "_" = false /\ Ascii.eqb c "x" = false /\ Ascii.eqb c "X" = false /\
  Ascii.eqb c "#" = false /\ 0 <= PyInt.digit_value c.
Proof.
  destruct c as [[] [] [] [] [] [] [] []]; vm_compute;
    intros H; first [discriminate H | repeat split; first [reflexivity | intros E; discriminate E]].
Qed.

Lemma int16_two_digits (a b : ascii) :
  PyInt.digit_value a < 16 -> PyInt.digit_value b < 16 ->
  PyInt.int16 (String a (String b EmptyString)) =
  Some (16 * PyInt.digit_value a + PyInt.digit_value b).
Proof.
  intros Ha Hb.
  destruct (digit_char_facts a Ha) as (Sa & Ma & Pa & Ua & _).
  destruct (digit_char_facts b Hb) as (_ & _ & _ & _ & Xb & Xb' & _).
  unfold PyInt.int16. cbn [PyStr.lstrip]. rewrite Sa.
  unfold PyInt.sign. rewrite Ma, Pa.
  unfold PyInt.skip_prefix16. rewrite Xb, Xb', andb_false_r.
  rewrite Ua. cbn [PyInt.scan_digits].
  apply Z.ltb_lt in Ha, Hb. rewrite Ha, Hb. cbn.
  f_equal; try ring.
Qed.

Lemma substring_short (h : string) :
  (String.length h <= 4)%nat -> substring 4 2 h = EmptyString.
Proof.
  intros Hh. destruct h as [|a [|b [|c [|d [|e h]]]]]; try reflexivity.
  simpl in Hh. lia.
Qed.

(* ------------------------------------------------------------------ *)
(** ** [str.replace] *)

Lemma string_append_cons (c : ascii) (a b : string) :
  (String c a ++ b)%string = String c (a ++ b).
Proof. reflexivity. Qed.

Lemma strip_prefix_app (p s : string) : PyStr.strip_prefix p (p ++ s) = Some s.
Proof.
  induction p as [|c p IH]; [reflexivity|]. rewrite string_append_cons.
  cbn [PyStr.strip_prefix]. rewrite Ascii.eqb_refl. exact IH.
Qed.

Lemma replace_scan_none (old new s : string) (fuel : nat) :
  PyStr.occurs old s = false -> PyStr.replace_scan fuel old new s = s.
Proof.
  revert fuel. induction s as [|c s IH]; intros [|f] Hocc; try reflexivity.
  simpl in Hocc |- *. destruct (PyStr.strip_prefix old (String c s)); [discriminate|].
  now rewrite IH.
Qed.

Lemma replace_prefix_once (old rest : string) :
  old <> EmptyString -> PyStr.occurs old rest = false ->
  PyStr.replace old "" (old ++ rest) = rest.
Proof.
  intros Hne Hocc. destruct old as [|c0 old0]; [contradiction|].
  unfold PyStr.replace. rewrite string_length_append, string_append_cons.
  cbn [String.length Nat.add PyStr.replace_scan].
  rewrite <- string_append_cons, strip_prefix_app.
  exact (replace_scan_none _ _ _ _ Hocc).
Qed.

Lemma replace_scan_ext (x : string) (fuel : nat) :
  ~ In "."%char (list_ascii_of_string x) ->
  (String.length x < fuel)%nat ->
  PyStr.replace_scan fuel ".png" "" (x ++ ".png") = x.
Proof.
  revert fuel. induction x as [|c x IH]; intros [|f] Hx Hf; simpl in Hf; try lia.
  - destruct f; reflexivity.
  - rewrite string_append_cons. cbn [PyStr.replace_scan PyStr.strip_prefix].
    destruct (Ascii.eqb_spec "." c) as [<-|Hne].
    + exfalso. apply Hx. left. reflexivity.
    + rewrite IH; [reflexivity | | lia]. intros H. apply Hx. right. exact H.
Qed.

Lemma replace_scan_char (a b : ascii) (s : string) (fuel : nat) :
  (String.length s <= fuel)%nat ->
  PyStr.replace_scan fuel (String a EmptyString) (String b EmptyString) s =
  PyStr.map_chars (fun c => if Ascii.eqb c a then b else c) s.
Proof.
  revert fuel. induction s as [|c s IH]; intros [|f] Hf; simpl in Hf; try lia;
    try reflexivity.
  cbn [PyStr.replace_scan PyStr.strip_prefix PyStr.map_chars].
  rewrite (Ascii.eqb_sym c a).
  destruct (Ascii.eqb a c); rewrite IH by lia; reflexivity.
Qed.

Lemma safe_county_name_chars (n : string) (x : ascii) :
  In x (list_ascii_of_string (safe_county_name n)) ->
  PyStr.is_alnum x = true \/ x = "_"%char.
Proof.
  unfold safe_county_name. induction n as [|c n IH]; simpl; [tauto|].
  intros [<-|H]; [|exact (IH H)].
  destruct (PyStr.is_alnum c) eqn:E; [left; exact E | right; reflexivity].
Qed.

Lemma map_chars_map_chars (f g : ascii -> ascii) (s : string) :
  PyStr.map_chars f (PyStr.map_chars g s) = PyStr.map_chars (fun c => f (g c)) s.
Proof. induction s as [|c s IH]; simpl; [reflexivity | now rewrite IH]. Qed.

Lemma map_chars_ext (f g : ascii -> ascii) (s : string) :
  (forall c, f c = g c) -> PyStr.map_chars f s = PyStr.map_chars g s.
Proof. intros E. induction s as [|c s IH]; simpl; [reflexivity | now rewrite E, IH]. Qed.

Lemma map_chars_length (f : ascii -> ascii) (s : string) :
  String.length (PyStr.map_chars f s) = String.length s.
Proof. induction s as [|c s IH]; simpl; [reflexivity | now rewrite IH]. Qed.

(* ------------------------------------------------------------------ *)
(** ** The batch loop *)

Lemma parse_batch_line_none (overlays_dict : gmap string loc) (line : string) :
  parse_batch_line overlays_dict line = None <->
  (length (PyStr.split PyStr.pipe line) < 2)%nat.
Proof.
  unfold parse_batch_line. cbv zeta. rewrite length_map.
  destruct (Nat.ltb_spec (length (PyStr.split PyStr.pipe line)) 2) as [Hl|Hl].
  - tauto.
  - split; [|lia]. destruct (overlays_dict !! _); discriminate.
Qed.

Lemma batch_loop_warnings `{Pillow} (cfg : config) (template : loc)
    (overlays_dict : gmap string loc) (fnt : font) (lines : list string) :
  forall idx bs st bs' st',
  batch_loop cfg template overlays_dict fnt idx lines bs st = (Some bs', st') ->
  warnings bs' = warnings bs ++
    map fst (List.filter
               (fun il => (length (PyStr.split PyStr.pipe (snd il)) <? 2)%nat)
               (combine (seq (S idx) (length lines)) lines)).
Proof.
  induction lines as [|line lines IH]; intros idx bs st bs' st' Hrun.
  - simpl in Hrun. injection Hrun as <- _. simpl. now rewrite app_nil_r.
  - simpl in Hrun. cbn [length seq combine List.filter snd].
    destruct (parse_batch_line overlays_dict line) as [[[f ov] txt]|] eqn:Hp.
    + assert (Hl : (length (PyStr.split PyStr.pipe line) <? 2)%nat = false).
      { apply Nat.ltb_ge. destruct (Nat.lt_ge_cases (length (PyStr.split PyStr.pipe line)) 2)
          as [Hlt|Hge]; [|exact Hge].
        apply (proj2 (parse_batch_line_none overlays_dict line)) in Hlt. congruence. }
      rewrite Hl.
      unfold mbind, M_bind in Hrun.
      destruct (generate_image cfg template ov txt fnt st) as [[c|] st1]; [|discriminate].
      unfold read in Hrun.
      destruct (heap st1 !! c) as [png|]; [|discriminate].
      rewrite (IH _ _ _ _ _ Hrun). reflexivity.
    + assert (Hl : (length (PyStr.split PyStr.pipe line) <? 2)%nat = true).
      { apply Nat.ltb_lt. apply (proj1 (parse_batch_line_none overlays_dict line)). exact Hp. }
      rewrite Hl. rewrite (IH _ _ _ _ _ Hrun). simpl.
      now rewrite <- app_assoc.
Qed.

Lemma batch_loop_template `{Pillow} (cfg : config) (template : loc) (timg : image)
    (overlays_dict : gmap string loc) (fnt : font) (lines : list string) :
  forall idx bs st,
  store_wf st -> heap st !! template = Some timg ->
  Forall (fun e => img_w (snd e) = img_w timg /\ img_h (snd e) = img_h timg)
    (generated_images bs) ->
  let res := batch_loop cfg template overlays_dict fnt idx lines bs st in
  store_wf (snd res) /\ heap (snd res) !! template = Some timg /\
  forall bs', fst res = Some bs' ->
    Forall (fun e => img_w (snd e) = img_w timg /\ img_h (snd e) = img_h timg)
      (generated_images bs').
Proof.
  induction lines as [|line lines IH]; intros idx bs st Hwf Htpl Hall res.
  - split; [exact Hwf|]. split; [exact Htpl|]. intros bs' E.
    simpl in E. injection E as <-. exact Hall.
  - unfold res. simpl.
    destruct (parse_batch_line overlays_dict line) as [[[f ov] txt]|].
    + destruct (generate_image_on_copy cfg template timg ov txt fnt st Hwf Htpl)
        as (Hwf1 & Htpl1 & Hc).
      unfold mbind, M_bind.
      destruct (generate_image cfg template ov txt fnt st) as [[c|] st1] eqn:E;
        simpl in Hwf1, Htpl1, Hc.
      * destruct (Hc c eq_refl) as (im & Him & Hw & Hh).
        unfold read. rewrite Him.
        apply IH; [exact Hwf1 | exact Htpl1|]. simpl.
        apply Forall_forall. intros e He. apply list_elem_of_In, dict_set_elems in He as [->|He].
        -- simpl. auto.
        -- apply list_elem_of_In in He. exact (proj1 (Forall_forall _ _) Hall e He).
      * split; [exact Hwf1|]. split; [exact Htpl1|]. discriminate.
    + apply IH; assumption.
Qed.

(* ------------------------------------------------------------------ *)
(** ** The county loop *)

Lemma county_image_on_copy `{Pillow} (cfg : config) (template : loc) (timg : image)
    (fnt : font) (selected_state : string) (map_img : loc) (county_name : string)
    (st : store) :
  store_wf st -> heap st !! template = Some timg ->
  let res := county_image cfg template fnt selected_state map_img county_name st in
  store_wf (snd res) /\ heap (snd res) !! template = Some timg /\
  forall canvas, fst res = Some canvas ->
    canvas <> template /\
    exists im, heap (snd res) !! canvas = Some im /\
               img_w im = img_w timg /\ img_h im = img_h timg.
Proof.
  intros Hwf Htpl res.
  pose proof (map_Forall_lookup_1 _ _ _ _ Hwf Htpl) as Htn. simpl in Htn.
  set (n := next_loc st) in *.
  set (st1 := mkStore (<[n := timg]> (heap st)) (S n)).
  assert (Hcopy : copy template st = (Some n, st1)).
  { unfold copy, mbind, M_bind, read. rewrite Htpl. reflexivity. }
  assert (Hwf1 : store_wf st1).
  { apply (keeps_wf_copy template st) in Hwf. rewrite Hcopy in Hwf. exact Hwf. }
  assert (Hinv1 : canvas_inv template timg n st1).
  { unfold canvas_inv, st1. simpl.
    rewrite lookup_insert_ne by lia. split; [exact Htpl|].
    split; [|lia]. exists timg. rewrite lookup_insert_eq. auto. }
  assert (Hres : res =
    ((county_map_resized ←
        (if String.eqb selected_state "AK"
         then fit_into map_img (overlay_max_w cfg * 4) (overlay_max_h cfg * 4)
         else fit_into map_img (overlay_max_w cfg) (overlay_max_h cfg)) ;
      alpha_composite n county_map_resized (overlay_x cfg, overlay_y cfg) ;;
      multiline_text n (text_x cfg, text_y cfg)
        (county_name ++ " " ++ subdivision selected_state ++
         String "010" "residents needed!")%string fnt
        (text_color_rgb cfg) (text_spacing cfg) (text_align cfg) ;;
      mret n) st1)).
  { unfold res, county_image. rewrite (bind_some _ _ _ _ _ Hcopy). reflexivity. }
  set (P := fun s => store_wf s /\ canvas_inv template timg n s).
  assert (HP1 : P st1) by (split; assumption).
  assert (Hkeep : P (snd res)).
  { rewrite Hres. revert HP1. generalize st1. apply keeps_bind.
    - case_match; apply keeps_and; first [apply keeps_wf_fit_into | apply keeps_fit_into].
    - intros o. apply keeps_bind.
      + apply keeps_and; [apply keeps_wf_alpha_composite | apply keeps_alpha_composite].
      + intros []. apply keeps_bind.
        * apply keeps_and; [apply keeps_wf_multiline_text | apply keeps_multiline_text].
        * intros []. apply keeps_ret. }
  destruct Hkeep as (Hwf' & Ht & Hc & Hne & _ & _).
  split; [exact Hwf'|]. split; [exact Ht|]. intros canvas Hcanvas.
  assert (canvas = n) as ->.
  { rewrite Hres in Hcanvas. revert Hcanvas. apply yields_bind. intros o.
    apply yields_bind. intros []. apply yields_bind. intros []. apply yields_ret. }
  split; [congruence | exact Hc].
Qed.

Lemma county_loop_entries `{Pillow} (cfg : config) (template : loc) (fnt : font)
    (use_template : bool) (selected_state state_name : string)
    (rows : list (string * loc)) :
  forall imgs st imgs' st',
  county_loop cfg template fnt use_template selected_state state_name rows imgs st
    = (Some imgs', st') ->
  NoDup (map fst imgs) ->
  NoDup (map fst imgs') /\
  forall entry, In entry (map fst imgs') <->
    In entry (map fst imgs) \/
    exists row, In row rows /\
      entry = county_filename use_template state_name (fst row).
Proof.
  induction rows as [|[county_name map_img] rows IH]; intros imgs st imgs' st' Hrun Hnd.
  - simpl in Hrun. injection Hrun as <- _. split; [exact Hnd|].
    intros entry. split; [tauto|]. intros [Hin|(r & [] & _)]. exact Hin.
  - simpl in Hrun. unfold mbind, M_bind in Hrun.
    destruct ((if use_template
               then county_image cfg template fnt selected_state map_img county_name
               else mret map_img) st) as [[out|] st1]; [|discriminate].
    unfold read in Hrun. destruct (heap st1 !! out) as [png|]; [|discriminate].
    destruct (IH _ _ _ _ Hrun (dict_set_nodup _ _ _ Hnd)) as [H1 H2].
    split; [exact H1|]. intros entry. rewrite H2, dict_set_keys. split.
    + intros [[->|Hin]|(r & Hr & ->)].
      * right. exists (county_name, map_img). split; [left; reflexivity | reflexivity].
      * left. exact Hin.
      * right. exists r. split; [right; exact Hr | reflexivity].
    + intros [Hin|(r & [<-|Hr] & ->)].
      * left. right. exact Hin.
      * left. left. reflexivity.
      * right. exists r. split; [exact Hr | reflexivity].
Qed.

Lemma county_loop_template `{Pillow} (cfg : config) (template : loc) (timg : image)
    (fnt : font) (selected_state state_name : string) (rows : list (string * loc)) :
  forall imgs st,
  store_wf st -> heap st !! template = Some timg ->
  Forall (fun e => img_w (snd e) = img_w timg /\ img_h (snd e) = img_h timg) imgs ->
  let res := county_loop cfg template fnt true selected_state state_name rows imgs st in
  store_wf (snd res) /\ heap (snd res) !! template = Some timg /\
  forall imgs', fst res = Some imgs' ->
    Forall (fun e => img_w (snd e) = img_w timg /\ img_h (snd e) = img_h timg) imgs'.
Proof.
  induction rows as [|[county_name map_img] rows IH]; intros imgs st Hwf Htpl Hall res.
  - split; [exact Hwf|]. split; [exact Htpl|]. intros imgs' E.
    simpl in E. injection E as <-. exact Hall.
  - unfold res. simpl.
    destruct (county_image_on_copy cfg template timg fnt selected_state map_img
                county_name st Hwf Htpl) as (Hwf1 & Htpl1 & Hc).
    unfold mbind, M_bind.
    destruct (county_image cfg template fnt selected_state map_img county_name st)
      as [[c|] st1]; simpl in Hwf1, Htpl1, Hc.
    + destruct (Hc c eq_refl) as (_ & im & Him & Hw & Hh).
      unfold read. rewrite Him.
      apply IH; [exact Hwf1 | exact Htpl1|].
      apply Forall_forall. intros e He. apply list_elem_of_In, dict_set_elems in He as [->|He].
      * simpl. auto.
      * apply list_elem_of_In in He. exact (proj1 (Forall_forall _ _) Hall e He).
    + split; [exact Hwf1|]. split; [exact Htpl1|]. discriminate.
Qed.

(* ------------------------------------------------------------------ *)
(** ** Properties of the rest of the application *)

(** X1: [hex_to_rgb] reads a colour picker value [#RRGGBB] (six hexadecimal
    digits, either case) as the three numbers the digit pairs denote. *)
Theorem hex_to_rgb_six_digits (c1 c2 c3 c4 c5 c6 : ascii)
    (Hdigits : Forall (fun c => PyInt.digit_value c < 16) [c1; c2; c3; c4; c5; c6]) :
  hex_to_rgb (String "#" (String c1 (String c2 (String c3 (String c4
                (String c5 (String c6 EmptyString))))))) =
  Some (16 * PyInt.digit_value c1 + PyInt.digit_value c2,
        16 * PyInt.digit_value c3 + PyInt.digit_value c4,
        16 * PyInt.digit_value c5 + PyInt.digit_value c6).
Proof.
  repeat match goal with
         | H : Forall _ (_ :: _) |- _ => apply Forall_cons in H as [? H]
         end.
  match goal with
  | H1 : PyInt.digit_value c1 < 16 |- _ =>
      destruct (digit_char_facts c1 H1) as (_ & _ & _ & _ & _ & _ & Hhash & _)
  end.
  unfold hex_to_rgb. cbn [PyStr.lstrip_char]. rewrite Ascii.eqb_refl.
  cbn [PyStr.lstrip_char]. rewrite Hhash. cbn [substring].
  rewrite !int16_two_digits by assumption. reflexivity.
Qed.

(** X2: [hex_to_rgb] raises [ValueError] when fewer than five characters follow
    the leading [#]s: the third slice is empty. *)
Theorem hex_to_rgb_short (color : string)
    (Hshort : (String.length (PyStr.lstrip_char "#" color) <= 4)%nat) :
  hex_to_rgb color = None.
Proof.
  unfold hex_to_rgb. cbv zeta. rewrite (substring_short _ Hshort).
  destruct (PyInt.int16 (substring 0 2 _)); [|reflexivity].
  destruct (PyInt.int16 (substring 2 2 _)); reflexivity.
Qed.

(** X3: Removing a colour twice, with thresholds [t1] and then [t2], is
    removing it once with the larger threshold; in particular it is
    idempotent. *)
Theorem make_color_transparent_twice (img : image)
    (target_color : byte * byte * byte) (t1 t2 : Z) :
  make_color_transparent (make_color_transparent img target_color t1) target_color t2 =
  make_color_transparent img target_color (Z.max t1 t2).
Proof.
  unfold make_color_transparent. simpl. f_equal. rewrite map_map.
  apply map_ext. intros p. rewrite !transparent_step_exact.
  assert (Hd : forall q, sq_dist (mkPixel (pr q) (pg q) (pb q) zero_byte) target_color
                         = sq_dist q target_color).
  { intros q. destruct target_color as [[? ?] ?]. reflexivity. }
  pose proof (sq_dist_range p target_color) as Hr.
  set (d := sq_dist p target_color) in *.
  destruct (Z.max_spec t1 t2) as [[Hlt Hm]|[Hle Hm]]; rewrite Hm;
  destruct (Z.ltb_spec 0 t1), (Z.ltb_spec d (t1 * t1)); simpl;
    rewrite ?Hd; fold d;
    destruct (Z.ltb_spec 0 t2), (Z.ltb_spec d (t2 * t2)); simpl;
    try reflexivity; nia.
Qed.

(** X4: The overlays dict: a name maps to the processed overlay saved under it,
    if any, else to the last uploaded file of that name; its keys are the
    distinct names of both. *)
Theorem load_overlays_lookup (uploads saved_overlays : list (string * loc))
    (name : string) :
  dict_get (load_overlays uploads saved_overlays) name =
    match dict_get (rev saved_overlays) name with
    | Some o => Some o
    | None => dict_get (rev uploads) name
    end /\
  NoDup (map fst (load_overlays uploads saved_overlays)) /\
  (forall x, In x (map fst (load_overlays uploads saved_overlays)) <->
             In x (map fst uploads) \/ In x (map fst saved_overlays)).
Proof.
  unfold load_overlays. split.
  - rewrite !dict_update_get. simpl.
    destruct (dict_get (rev saved_overlays) name); [reflexivity|].
    destruct (dict_get (rev uploads) name); reflexivity.
  - destruct (dict_update_keys uploads [] (NoDup_nil_2)) as [H1 H2].
    destruct (dict_update_keys saved_overlays _ H1) as [H3 H4].
    split; [exact H3|]. intros x. rewrite H4, H2. simpl. tauto.
Qed.

(** X5: The "Background Remover": processing an overlay leaves the uploaded
    image unchanged and stores the processed pixels in a new image; after
    "Use This in Generator", the overlays dict of the next run maps
    [processed_<choice>] to that image, for the choice current at that
    click. *)
Theorem remove_background_then_use (overlays_dict uploads : list (string * loc))
    (choice choice' : string) (bg_color_rgb : byte * byte * byte) (threshold : Z)
    (ss : session) (st : store) (original : loc) (im : image)
    (Hwf : store_wf st) (Hchoice : dict_get overlays_dict choice = Some original)
    (Himg : heap st !! original = Some im)
    (Hsaved : NoDup (map fst (saved_overlays ss))) :
  let res := remove_background overlays_dict choice bg_color_rgb threshold ss st in
  heap (snd res) !! original = Some im /\
  exists p ss', fst res = Some ss' /\ processed_overlay ss' = Some p /\
    p <> original /\
    heap (snd res) !! p = Some (make_color_transparent im bg_color_rgb threshold) /\
    dict_get (load_overlays uploads (saved_overlays (use_processed choice' ss')))
      ("processed_" ++ choice')%string = Some p.
Proof.
  intros res.
  pose proof (map_Forall_lookup_1 _ _ _ _ Hwf Himg) as Hlt. simpl in Hlt.
  set (n := next_loc st) in *.
  set (st1 := mkStore (<[n := im]> (heap st)) (S n)).
  set (st2 := mkStore (<[S n := im]> (heap st1)) (S (S n))).
  set (st3 := mkStore (<[S n := make_color_transparent im bg_color_rgb threshold]>
                         (heap st2)) (S (S n))).
  assert (Hc1 : copy original st = (Some n, st1)).
  { unfold copy, mbind, M_bind, read. rewrite Himg. reflexivity. }
  assert (Hc2 : copy n st1 = (Some (S n), st2)).
  { unfold copy, mbind, M_bind, read. simpl. rewrite lookup_insert_eq. reflexivity. }
  assert (Hm : make_color_transparent_at n bg_color_rgb threshold st1 = (Some (S n), st3)).
  { unfold make_color_transparent_at. rewrite (bind_some _ _ _ _ _ Hc2).
    unfold mbind, M_bind, read. simpl. rewrite lookup_insert_eq. reflexivity. }
  assert (Hres : res = (Some (mkSession (saved_overlays ss) (Some (S n)) (Some choice)), st3)).
  { unfold res, remove_background. rewrite Hchoice.
    rewrite (bind_some _ _ _ _ _ Hc1), (bind_some _ _ _ _ _ Hm). reflexivity. }
  rewrite Hres. simpl. split.
  - rewrite !lookup_insert_ne by lia. exact Himg.
  - exists (S n), (mkSession (saved_overlays ss) (Some (S n)) (Some choice)).
    split; [reflexivity|]. split; [reflexivity|]. split; [lia|]. split.
    + apply lookup_insert_eq.
    + unfold use_processed, load_overlays. simpl.
      rewrite dict_update_get, dict_get_rev by (apply dict_set_nodup; exact Hsaved).
      rewrite dict_get_set_eq. reflexivity.
Qed.

(** X6: In the "Single Image Generator" every option of the select box is
    accepted; the option ["None"] means no overlay, even when an overlay
    was uploaded under that name, and any other option the overlay of that
    name. *)
Theorem select_overlay_offered (overlays_dict : list (string * loc))
    (overlay_choice : string)
    (Hoffered : In overlay_choice (overlay_options overlays_dict)) :
  select_overlay overlays_dict overlay_choice =
  Some (if String.eqb overlay_choice "None" then None
        else dict_get overlays_dict overlay_choice).
Proof.
  unfold select_overlay. unfold overlay_options in Hoffered.
  destruct overlays_dict as [|kv d].
  - simpl in Hoffered. destruct Hoffered as [<-|[]]. reflexivity.
  - destruct (String.eqb_spec overlay_choice "None") as [_|Hne]; [reflexivity|].
    destruct Hoffered as [E|Hin]; [symmetry in E; contradiction|].
    destruct (dict_get (kv :: d) overlay_choice) eqn:E; [reflexivity|].
    apply dict_get_none in E. contradiction.
Qed.


(** X8: The batch button shows its error and generates nothing exactly when
    every line of the input is blank. *)
Theorem batch_generate_blank_input `{Pillow} (cfg : config) (template : loc)
    (overlays_dict : gmap string loc) (fnt : font) (batch_input : string)
    (st : store) :
  batch_generate cfg template overlays_dict fnt batch_input st = (Some None, st) <->
  Forall (fun l => PyStr.strip l = EmptyString) (PyStr.split "010"%char batch_input).
Proof.
  rewrite <- batch_lines_nil. unfold batch_generate. cbv zeta.
  destruct (batch_lines batch_input) as [|l ls]; [split; intros; reflexivity|].
  split; [|discriminate]. unfold mbind, M_bind.
  destruct (batch_loop cfg template overlays_dict fnt 0 (l :: ls) (mkBatch [] []) st)
    as [[bs|] st']; discriminate.
Qed.

(** X9: The warnings of a batch name, in order, the malformed lines (fewer
    than two fields), numbered from 1 among the non-blank lines. *)
Theorem batch_warnings_line_numbers `{Pillow} (cfg : config) (template : loc)
    (overlays_dict : gmap string loc) (fnt : font) (batch_input : string)
    (st : store) (bs : batch_state)
    (Hrun : fst (batch_generate cfg template overlays_dict fnt batch_input st)
            = Some (Some bs)) :
  warnings bs =
  map fst (List.filter
             (fun il => (length (PyStr.split PyStr.pipe (snd il)) <? 2)%nat)
             (combine (seq 1 (length (batch_lines batch_input)))
                (batch_lines batch_input))).
Proof.
  unfold batch_generate in Hrun. cbv zeta in Hrun.
  destruct (batch_lines batch_input) as [|l ls]; [discriminate|].
  unfold mbind, M_bind in Hrun.
  destruct (batch_loop cfg template overlays_dict fnt 0 (l :: ls) (mkBatch [] []) st)
    as [[bs'|] st'] eqn:E; [|discriminate].
  simpl in Hrun. injection Hrun as <-.
  exact (batch_loop_warnings cfg template overlays_dict fnt _ 0 _ _ _ _ E).
Qed.

(** X10: The archive of a batch never holds two entries of the same name, and
    its entries are exactly the names [<filename>.png] of the well-formed
    lines: lines sharing a file name share one entry. *)
Theorem batch_archive_entries `{Pillow} (cfg : config) (template : loc)
    (overlays_dict : gmap string loc) (fnt : font) (batch_input : string)
    (st : store) (bs : batch_state)
    (Hrun : fst (batch_generate cfg template overlays_dict fnt batch_input st)
            = Some (Some bs)) :
  NoDup (zip_entries bs) /\
  forall entry, In entry (zip_entries bs) <->
    exists line filename ov txt, In line (batch_lines batch_input) /\
      parse_batch_line overlays_dict line = Some (filename, ov, txt) /\
      entry = (filename ++ PyStr.png_ext)%string.
Proof.
  unfold batch_generate in Hrun. cbv zeta in Hrun.
  destruct (batch_lines batch_input) as [|l ls]; [discriminate|].
  unfold mbind, M_bind in Hrun.
  destruct (batch_loop cfg template overlays_dict fnt 0 (l :: ls) (mkBatch [] []) st)
    as [[bs'|] st'] eqn:E; [|discriminate].
  simpl in Hrun. injection Hrun as <-.
  destruct (batch_loop_entries cfg template overlays_dict fnt _ 0 _ _ _ _ E)
    as [H1 H2]; [constructor|].
  split; [exact H1|]. intros entry. unfold zip_entries. rewrite H2. simpl. tauto.
Qed.

(** X11: Each text field of a batch line becomes one line of the drawn text:
    splitting the text at newlines gives back the fields after the file
    name (without the overlay name when one is selected), when there are
    any. *)
Theorem batch_text_lines (overlays_dict : gmap string loc)
    (batch_input line filename : string) (ov : option loc) (custom_text : string)
    (Hline : In line (batch_lines batch_input))
    (Hparse : parse_batch_line overlays_dict line = Some (filename, ov, custom_text)) :
  exists fields,
    map PyStr.strip (PyStr.split PyStr.pipe line) = filename :: fields /\
    let text_parts := match ov with Some _ => removelast fields | None => fields end in
    text_parts <> [] -> PyStr.split "010"%char custom_text = text_parts.
Proof.
  destruct (batch_lines_in _ _ Hline) as [q [Hq ->]].
  assert (Hfree : forall p, In p (map PyStr.strip (PyStr.split PyStr.pipe (PyStr.strip q))) ->
                  ~ In "010"%char (list_ascii_of_string p)).
  { intros p Hp Hx. apply in_map_iff in Hp as [p0 [<- Hp0]].
    apply strip_chars in Hx.
    destruct (split_chars _ _ _ _ Hp0 Hx) as [Hx' _].
    apply strip_chars in Hx'.
    destruct (split_chars _ _ _ _ Hq Hx') as [_ Hne]. apply Hne. reflexivity. }
  unfold parse_batch_line in Hparse. cbv zeta in Hparse.
  revert Hfree Hparse.
  generalize (map PyStr.strip (PyStr.split PyStr.pipe (PyStr.strip q))) as parts.
  intros parts Hfree Hparse.
  destruct parts as [|p0 fields]; [discriminate|].
  destruct (length (p0 :: fields) <? 2)%nat; [discriminate|].
  exists fields. simpl in Hparse. revert Hparse.
  destruct (overlays_dict !! _) as [o|]; intros Hparse; cbn in Hparse;
    injection Hparse as <- <- <-; (split; [reflexivity|]); cbv zeta; intros Hne;
    apply split_join; try exact Hne; apply Forall_forall; intros x Hx; apply list_elem_of_In in Hx;
    apply Hfree; right; first [exact Hx | apply removelast_in; exact Hx].
Qed.

(** X12: Every image of a batch archive has the template's size, and the
    template is never modified: each line is drawn on a new copy of it. *)
Theorem batch_images_from_template `{Pillow} (cfg : config) (template : loc)
    (timg : image) (overlays_dict : gmap string loc) (fnt : font)
    (batch_input : string) (st : store)
    (Hwf : store_wf st) (Htpl : heap st !! template = Some timg) :
  let res := batch_generate cfg template overlays_dict fnt batch_input st in
  heap (snd res) !! template = Some timg /\
  forall bs, fst res = Some (Some bs) ->
    Forall (fun e => img_w (snd e) = img_w timg /\ img_h (snd e) = img_h timg)
      (generated_images bs).
Proof.
  intros res. unfold res, batch_generate. cbv zeta.
  destruct (batch_lines batch_input) as [|l ls].
  - split; [exact Htpl | discriminate].
  - destruct (batch_loop_template cfg template timg overlays_dict fnt (l :: ls) 0
                (mkBatch [] []) st Hwf Htpl (Forall_nil_2 _)) as (_ & Ht & Hall).
    unfold mbind, M_bind.
    destruct (batch_loop cfg template overlays_dict fnt 0 (l :: ls) (mkBatch [] []) st)
      as [[bs'|] st'].
    + split; [exact Ht|]. intros bs E. injection E as <-. exact (Hall bs' eq_refl).
    + split; [exact Ht | discriminate].
Qed.

(** X13: The county archive never holds two entries of the same name, and its
    entries are the file names of the counties; two counties share an
    entry exactly when their names agree after non-alphanumeric characters
    are replaced by [_]. *)
Theorem county_images_entries `{Pillow} (cfg : config) (template : loc) (fnt : font)
    (use_template : bool) (selected_state state_name : string)
    (rows : list (string * loc)) (st : store) (county_images : list (string * image))
    (Hrun : fst (county_loop cfg template fnt use_template selected_state state_name
                   rows [] st) = Some county_images) :
  NoDup (map fst county_images) /\
  (forall entry, In entry (map fst county_images) <->
     exists row, In row rows /\
       entry = county_filename use_template state_name (fst row)) /\
  (forall a b, county_filename use_template state_name a =
               county_filename use_template state_name b <->
               safe_county_name a = safe_county_name b).
Proof.
  destruct (county_loop cfg template fnt use_template selected_state state_name rows [] st)
    as [r st'] eqn:E.
  simpl in Hrun. subst r.
  destruct (county_loop_entries cfg template fnt use_template selected_state state_name
              rows [] st county_images st' E (NoDup_nil_2)) as [H1 H2].
  split; [exact H1|]. split.
  - intros entry. rewrite H2. simpl. tauto.
  - intros a b. unfold county_filename. split; [|intros ->; reflexivity].
    destruct use_template; intros Eab.
    + apply string_app_inj_l, string_app_inj_l, string_app_inj_l in Eab.
      exact (string_append_inj_r _ _ _ Eab).
    + apply string_app_inj_l, string_app_inj_l in Eab.
      exact (string_append_inj_r _ _ _ Eab).
Qed.

(** X14: The label of a county map's download button is the county name with
    every non-alphanumeric character shown as a space, as long as
    [<state>_] does not occur again in the file name. *)
Theorem county_display_name (state_name county_name : string)
    (Hstate : PyStr.occurs (state_name ++ "_") (safe_county_name county_name ++ ".png")
              = false) :
  county_display state_name (county_filename false state_name county_name) =
  PyStr.map_chars (fun c => if PyStr.is_alnum c then c else " "%char) county_name.
Proof.
  unfold county_display, county_filename. cbv zeta.
  set (safe := safe_county_name county_name).
  assert (E1 : PyStr.replace (state_name ++ "_") ""
                 (state_name ++ "_" ++ safe ++ ".png") = (safe ++ ".png")%string).
  { rewrite string_app_assoc. apply replace_prefix_once; [|exact Hstate].
    destruct state_name; discriminate. }
  rewrite E1.
  assert (Hdot : ~ In "."%char (list_ascii_of_string safe)).
  { intros H. apply safe_county_name_chars in H as [H|H]; [discriminate | discriminate]. }
  assert (E2 : PyStr.replace ".png" "" (safe ++ ".png") = safe).
  { unfold PyStr.replace. rewrite string_length_append.
    apply replace_scan_ext; [exact Hdot | simpl; lia]. }
  rewrite E2. unfold PyStr.replace.
  rewrite replace_scan_char by lia.
  unfold safe, safe_county_name. rewrite map_chars_map_chars.
  apply map_chars_ext. intros c.
  destruct (PyStr.is_alnum c) eqn:Ea; [|reflexivity].
  destruct (Ascii.eqb_spec c "_") as [->|_]; [discriminate | reflexivity].
Qed.

(** X15: In template mode every county image has the template's size, and the
    template is never modified: each county is drawn on a new copy. *)
Theorem county_images_from_template `{Pillow} (cfg : config) (template : loc)
    (timg : image) (fnt : font) (selected_state state_name : string)
    (rows : list (string * loc)) (st : store)
    (Hwf : store_wf st) (Htpl : heap st !! template = Some timg) :
  let res := county_loop cfg template fnt true selected_state state_name rows [] st in
  heap (snd res) !! template = Some timg /\
  forall county_images, fst res = Some county_images ->
    Forall (fun e => img_w (snd e) = img_w timg /\ img_h (snd e) = img_h timg)
      county_images.
Proof.
  intros res.
  destruct (county_loop_template cfg template timg fnt selected_state state_name rows
              [] st Hwf Htpl (Forall_nil_2 _)) as (_ & Ht & Hall).
  split; [exact Ht | exact Hall].
Qed.

(* ------------------------------------------------------------------ *)
(** ** The theorems at concrete inputs *)

Definition sample_image : image := mkImage 1 2 [mkPixel x10 x20 x30 xff; mkPixel xfe xff xfd x80].

Lemma make_color_transparent_extremes_witness :
  0 < 442 /\ max_sq_dist < 442 * 442 /\
  make_color_transparent sample_image (xff, xff, xff) 0 = sample_image /\
  img_data (make_color_transparent sample_image (xff, xff, xff) 442) =
  map (fun p => mkPixel (pr p) (pg p) (pb p) zero_byte) (img_data sample_image).
Proof.
  split; [lia|]. split; [vm_compute; reflexivity|].
  apply (make_color_transparent_extremes sample_image (xff, xff, xff) 442);
    [lia | vm_compute; reflexivity].
Defined.

Lemma parse_batch_line_overlay_selector_witness :
  map PyStr.strip (PyStr.split PyStr.pipe "img | a |  overlay1.png")
    = "img" :: ["a"] ++ ["overlay1.png"] /\
  parse_batch_line sample_overlays "img | a |  overlay1.png" =
  match sample_overlays !! "overlay1.png" with
  | Some ov => Some ("img", Some ov, PyStr.join PyStr.newline ["a"])
  | None => Some ("img", None, PyStr.join PyStr.newline (["a"] ++ ["overlay1.png"]))
  end.
Proof.
  split; [vm_compute; reflexivity|].
  apply parse_batch_line_overlay_selector. vm_compute. reflexivity.
Defined.

Lemma batch_loop_skips_malformed_witness :
  (length (PyStr.split PyStr.pipe "no pipe here") < 2)%nat /\
  batch_loop default_config 0 sample_overlays sample_font 0
    ["no pipe here"; "a | b"] (mkBatch [] []) =
  batch_loop default_config 0 sample_overlays sample_font 1
    ["a | b"] (mkBatch [1%nat] []).
Proof.
  split; [simpl; lia|].
  apply (batch_loop_skips_malformed default_config 0 sample_overlays sample_font 0
           "no pipe here" ["a | b"] (mkBatch [] [])).
  simpl. lia.
Defined.

Lemma two_field_overlay_line_witness :
  map PyStr.strip (PyStr.split PyStr.pipe "img |overlay1.png ") = ["img"; "overlay1.png"] /\
  sample_overlays !! "overlay1.png" = Some 1%nat /\
  parse_batch_line sample_overlays "img |overlay1.png " = Some ("img", Some 1%nat, EmptyString) /\
  forall st : store,
    generate_image default_config 0 (Some 1%nat) EmptyString sample_font st =
    (canvas ← copy 0 ;
     (overlay_resized ← fit_into 1 (overlay_max_w default_config)
                          (overlay_max_h default_config) ;
      alpha_composite canvas overlay_resized
        (overlay_x default_config, overlay_y default_config)) ;;
     mret canvas) st.
Proof.
  split; [vm_compute; reflexivity|]. split; [vm_compute; reflexivity|].
  apply (two_field_overlay_line default_config 0 sample_overlays sample_font
           "img |overlay1.png " "img" "overlay1.png" 1%nat);
    vm_compute; reflexivity.
Defined.

Lemma fit_into_size_witness :
  heap fit_sample_store !! 0%nat = Some (mkImage 100 158 []) /\
  (1 <= 100 <= 2 ^ 24)%Z /\ (1 <= 158 <= 2 ^ 24)%Z /\
  (1 <= 225 <= 2 ^ 24)%Z /\ (1 <= 175 <= 2 ^ 24)%Z /\
  exists w' h',
    (fst (fit_into_exact_size 100 158 225 175) - 1 <= w'
       <= fst (fit_into_exact_size 100 158 225 175))%Z /\
    (snd (fit_into_exact_size 100 158 225 175) - 1 <= h'
       <= snd (fit_into_exact_size 100 158 225 175))%Z /\
    (w' <= 225)%Z /\ (h' <= 175)%Z /\
    @fit_into plain_pillow 0 225 175 fit_sample_store =
      (if (w' <? 1)%Z || (h' <? 1)%Z then (None, fit_sample_store)
       else (Some (next_loc fit_sample_store),
             mkStore (<[next_loc fit_sample_store :=
                        mkImage w' h' (resample (mkImage 100 158 []) w' h')]>
                        (heap fit_sample_store))
                     (Datatypes.S (next_loc fit_sample_store)))).
Proof.
  split; [reflexivity|]. split; [lia|]. split; [lia|]. split; [lia|]. split; [lia|].
  apply (@fit_into_size plain_pillow 0%nat (mkImage 100 158 []) 225 175 fit_sample_store);
    [reflexivity|simpl; lia|simpl; lia|lia|lia].
Defined.

Definition sample_batch_result : batch_state :=
  mkBatch [] [("a.png", mkImage 1080 1350 []); ("b.png", mkImage 1080 1350 [])].

Lemma batch_entries_distinct_names_witness :
  Forall2 (fun line name => exists rest,
             map PyStr.strip (PyStr.split PyStr.pipe line) = name :: rest /\
             rest <> []) ["a | x"; "b | y"] ["a"; "b"] /\
  fst (batch_loop default_config 0 sample_overlays sample_font 0
         ["a | x"; "b | y"] (mkBatch [] []) sample_store) = Some sample_batch_result /\
  NoDup (zip_entries sample_batch_result) /\
  (forall entry, In entry (zip_entries sample_batch_result) <->
     exists name, In name ["a"; "b"] /\ entry = (name ++ PyStr.png_ext)%string) /\
  (NoDup ["a"; "b"] ->
   zip_entries sample_batch_result =
     map (fun n => (n ++ PyStr.png_ext)%string) ["a"; "b"] /\
   length (zip_entries sample_batch_result) = length ["a | x"; "b | y"]).
Proof.
  assert (Hv : Forall2 (fun line name => exists rest,
             map PyStr.strip (PyStr.split PyStr.pipe line) = name :: rest /\
             rest <> []) ["a | x"; "b | y"] ["a"; "b"]).
  { constructor; [exists ["x"]; split; [vm_compute; reflexivity | discriminate]|].
    constructor; [exists ["y"]; split; [vm_compute; reflexivity | discriminate]|].
    constructor. }
  assert (Hr : fst (batch_loop default_config 0 sample_overlays sample_font 0
         ["a | x"; "b | y"] (mkBatch [] []) sample_store) = Some sample_batch_result).
  { vm_compute. reflexivity. }
  split; [exact Hv|]. split; [exact Hr|].
  exact (batch_entries_distinct_names default_config 0 sample_overlays sample_font
           ["a | x"; "b | y"] ["a"; "b"] sample_store sample_batch_result Hv Hr).
Defined.

Lemma generate_image_copies_template_witness :
  store_wf sample_store /\
  heap sample_store !! 0%nat = Some (mkImage 1080 1350 []) /\
  let res := generate_image default_config 0 (Some 1%nat) "Hello" sample_font
               sample_store in
  heap (snd res) !! 0%nat = Some (mkImage 1080 1350 []) /\
  forall canvas, fst res = Some canvas ->
    canvas <> 0%nat /\
    exists im, heap (snd res) !! canvas = Some im /\
               img_w im = img_w (mkImage 1080 1350 []) /\
               img_h im = img_h (mkImage 1080 1350 []).
Proof.
  assert (Hwf : store_wf sample_store).
  { apply (bool_decide_unpack _). vm_compute. exact I. }
  assert (Ht : heap sample_store !! 0%nat = Some (mkImage 1080 1350 [])).
  { vm_compute. reflexivity. }
  split; [exact Hwf|]. split; [exact Ht|].
  exact (generate_image_copies_template default_config 0 _ (Some 1%nat) "Hello"
           sample_font sample_store Hwf Ht).
Defined.

Lemma hex_to_rgb_six_digits_witness :
  Forall (fun c => PyInt.digit_value c < 16)
    ["2"%char; "B"%char; "4"%char; "3"%char; "9"%char; "6"%char] /\
  hex_to_rgb "#2B4396" =
  Some (16 * PyInt.digit_value "2" + PyInt.digit_value "B",
        16 * PyInt.digit_value "4" + PyInt.digit_value "3",
        16 * PyInt.digit_value "9" + PyInt.digit_value "6").
Proof.
  assert (Hd : Forall (fun c => PyInt.digit_value c < 16)
                 ["2"%char; "B"%char; "4"%char; "3"%char; "9"%char; "6"%char]).
  { repeat constructor; vm_compute; reflexivity. }
  split; [exact Hd|].
  exact (hex_to_rgb_six_digits "2" "B" "4" "3" "9" "6" Hd).
Defined.

Lemma hex_to_rgb_short_witness :
  (String.length (PyStr.lstrip_char "#" "#abc") <= 4)%nat /\ hex_to_rgb "#abc" = None.
Proof.
  assert (Hs : (String.length (PyStr.lstrip_char "#" "#abc") <= 4)%nat).
  { apply Nat.leb_le. vm_compute. reflexivity. }
  split; [exact Hs|]. exact (hex_to_rgb_short "#abc" Hs).
Defined.

Definition sample_session : session := mkSession [] None None.

Lemma remove_background_then_use_witness :
  store_wf sample_store /\
  dict_get [("overlay1.png", 1%nat)] "overlay1.png" = Some 1%nat /\
  heap sample_store !! 1%nat = Some (mkImage 300 200 []) /\
  NoDup (map fst (saved_overlays sample_session)) /\
  let res := remove_background [("overlay1.png", 1%nat)] "overlay1.png"
               (xff, xff, xff) 30 sample_session sample_store in
  heap (snd res) !! 1%nat = Some (mkImage 300 200 []) /\
  exists p ss', fst res = Some ss' /\ processed_overlay ss' = Some p /\
    p <> 1%nat /\
    heap (snd res) !! p = Some (make_color_transparent (mkImage 300 200 []) (xff, xff, xff) 30) /\
    dict_get (load_overlays [("overlay1.png", 1%nat)]
                (saved_overlays (use_processed "overlay1.png" ss')))
      ("processed_" ++ "overlay1.png")%string = Some p.
Proof.
  assert (Hwf : store_wf sample_store).
  { apply (bool_decide_unpack _). vm_compute. exact I. }
  assert (Hd : dict_get [("overlay1.png", 1%nat)] "overlay1.png" = Some 1%nat).
  { vm_compute. reflexivity. }
  assert (Hi : heap sample_store !! 1%nat = Some (mkImage 300 200 [])).
  { vm_compute. reflexivity. }
  assert (Hn : NoDup (map fst (saved_overlays sample_session))).
  { apply NoDup_nil_2. }
  split; [exact Hwf|]. split; [exact Hd|]. split; [exact Hi|]. split; [exact Hn|].
  exact (remove_background_then_use [("overlay1.png", 1%nat)] [("overlay1.png", 1%nat)]
           "overlay1.png" "overlay1.png" (xff, xff, xff) 30 sample_session sample_store
           1%nat (mkImage 300 200 []) Hwf Hd Hi Hn).
Defined.

Lemma select_overlay_offered_witness :
  In "None" (overlay_options [("None", 3%nat); ("a.png", 4%nat)]) /\
  select_overlay [("None", 3%nat); ("a.png", 4%nat)] "None" =
  Some (if String.eqb "None" "None" then None
        else dict_get [("None", 3%nat); ("a.png", 4%nat)] "None").
Proof.
  assert (Hin : In "None" (overlay_options [("None", 3%nat); ("a.png", 4%nat)])).
  { simpl. left. reflexivity. }
  split; [exact Hin|].
  exact (select_overlay_offered [("None", 3%nat); ("a.png", 4%nat)] "None" Hin).
Defined.



Definition sample_batch_input : string :=
  PyStr.join (String "010" EmptyString) ["a | x"; "bad"; "  "; "b | y"].

Definition sample_batch_run : batch_state :=
  mkBatch [2%nat] (generated_images sample_batch_result).

Lemma batch_warnings_line_numbers_witness :
  fst (batch_generate default_config 0 sample_overlays sample_font sample_batch_input
         sample_store) = Some (Some sample_batch_run) /\
  warnings sample_batch_run =
  map fst (List.filter
             (fun il => (length (PyStr.split PyStr.pipe (snd il)) <? 2)%nat)
             (combine (seq 1 (length (batch_lines sample_batch_input)))
                (batch_lines sample_batch_input))).
Proof.
  assert (Hr : fst (batch_generate default_config 0 sample_overlays sample_font
                      sample_batch_input sample_store) = Some (Some sample_batch_run)).
  { vm_compute. reflexivity. }
  split; [exact Hr|].
  exact (batch_warnings_line_numbers default_config 0 sample_overlays sample_font
           sample_batch_input sample_store sample_batch_run Hr).
Defined.

Lemma batch_archive_entries_witness :
  fst (batch_generate default_config 0 sample_overlays sample_font sample_batch_input
         sample_store) = Some (Some sample_batch_run) /\
  NoDup (zip_entries sample_batch_run) /\
  forall entry, In entry (zip_entries sample_batch_run) <->
    exists line filename ov txt, In line (batch_lines sample_batch_input) /\
      parse_batch_line sample_overlays line = Some (filename, ov, txt) /\
      entry = (filename ++ PyStr.png_ext)%string.
Proof.
  assert (Hr : fst (batch_generate default_config 0 sample_overlays sample_font
                      sample_batch_input sample_store) = Some (Some sample_batch_run)).
  { vm_compute. reflexivity. }
  split; [exact Hr|].
  exact (batch_archive_entries default_config 0 sample_overlays sample_font
           sample_batch_input sample_store sample_batch_run Hr).
Defined.

Definition sample_text_line : string := "img | a | b | overlay1.png".

Definition sample_text : string := PyStr.join PyStr.newline ["a"; "b"].

Lemma batch_text_lines_witness :
  In sample_text_line (batch_lines sample_text_line) /\
  parse_batch_line sample_overlays sample_text_line = Some ("img", Some 1%nat, sample_text) /\
  exists fields,
    map PyStr.strip (PyStr.split PyStr.pipe sample_text_line) = "img" :: fields /\
    let text_parts := match Some 1%nat with Some _ => removelast fields | None => fields end in
    text_parts <> [] -> PyStr.split "010"%char sample_text = text_parts.
Proof.
  assert (Hin : In sample_text_line (batch_lines sample_text_line)).
  { vm_compute. left. reflexivity. }
  assert (Hp : parse_batch_line sample_overlays sample_text_line
               = Some ("img", Some 1%nat, sample_text)).
  { vm_compute. reflexivity. }
  split; [exact Hin|]. split; [exact Hp|].
  exact (batch_text_lines sample_overlays sample_text_line sample_text_line "img"
           (Some 1%nat) sample_text Hin Hp).
Defined.

Lemma batch_images_from_template_witness :
  store_wf sample_store /\
  heap sample_store !! 0%nat = Some (mkImage 1080 1350 []) /\
  let res := batch_generate default_config 0 sample_overlays sample_font
               sample_batch_input sample_store in
  heap (snd res) !! 0%nat = Some (mkImage 1080 1350 []) /\
  forall bs, fst res = Some (Some bs) ->
    Forall (fun e => img_w (snd e) = img_w (mkImage 1080 1350 []) /\
                     img_h (snd e) = img_h (mkImage 1080 1350 []))
      (generated_images bs).
Proof.
  assert (Hwf : store_wf sample_store).
  { apply (bool_decide_unpack _). vm_compute. exact I. }
  assert (Ht : heap sample_store !! 0%nat = Some (mkImage 1080 1350 [])).
  { vm_compute. reflexivity. }
  split; [exact Hwf|]. split; [exact Ht|].
  exact (batch_images_from_template default_config 0 (mkImage 1080 1350 [])
           sample_overlays sample_font sample_batch_input sample_store Hwf Ht).
Defined.

Definition sample_county_rows : list (string * loc) :=
  [("El Paso", 1%nat); ("Harris", 1%nat)].

Definition sample_county_images : list (string * image) :=
  [("verasight_survey_Texas_El_Paso.png", mkImage 1080 1350 []);
   ("verasight_survey_Texas_Harris.png", mkImage 1080 1350 [])].

Lemma county_images_entries_witness :
  fst (county_loop default_config 0 sample_font true "TX" "Texas" sample_county_rows []
         sample_store) = Some sample_county_images /\
  NoDup (map fst sample_county_images) /\
  (forall entry, In entry (map fst sample_county_images) <->
     exists row, In row sample_county_rows /\
       entry = county_filename true "Texas" (fst row)) /\
  (forall a b, county_filename true "Texas" a = county_filename true "Texas" b <->
               safe_county_name a = safe_county_name b).
Proof.
  assert (Hr : fst (county_loop default_config 0 sample_font true "TX" "Texas"
                      sample_county_rows [] sample_store) = Some sample_county_images).
  { vm_compute. reflexivity. }
  split; [exact Hr|].
  exact (county_images_entries default_config 0 sample_font true "TX" "Texas"
           sample_county_rows sample_store sample_county_images Hr).
Defined.

Lemma county_display_name_witness :
  PyStr.occurs ("Louisiana" ++ "_")
    (safe_county_name "St. John the Baptist" ++ ".png") = false /\
  county_display "Louisiana" (county_filename false "Louisiana" "St. John the Baptist") =
  PyStr.map_chars (fun c => if PyStr.is_alnum c then c else " "%char)
    "St. John the Baptist".
Proof.
  assert (Ho : PyStr.occurs ("Louisiana" ++ "_")
                 (safe_county_name "St. John the Baptist" ++ ".png") = false).
  { vm_compute. reflexivity. }
  split; [exact Ho|].
  exact (county_display_name "Louisiana" "St. John the Baptist" Ho).
Defined.

Lemma county_images_from_template_witness :
  store_wf sample_store /\
  heap sample_store !! 0%nat = Some (mkImage 1080 1350 []) /\
  let res := county_loop default_config 0 sample_font true "TX" "Texas"
               sample_county_rows [] sample_store in
  heap (snd res) !! 0%nat = Some (mkImage 1080 1350 []) /\
  forall county_images, fst res = Some county_images ->
    Forall (fun e => img_w (snd e) = img_w (mkImage 1080 1350 []) /\
                     img_h (snd e) = img_h (mkImage 1080 1350 []))
      county_images.
Proof.
  assert (Hwf : store_wf sample_store).
  { apply (bool_decide_unpack _). vm_compute. exact I. }
  assert (Ht : heap sample_store !! 0%nat = Some (mkImage 1080 1350 [])).
  { vm_compute. reflexivity. }
  split; [exact Hwf|]. split; [exact Ht|].
  exact (county_images_from_template default_config 0 (mkImage 1080 1350 [])
           sample_font "TX" "Texas" sample_county_rows sample_store Hwf Ht).
Defined.
